(** * The storiesOf-to-CSF codemod ([storiesofTransformer])

    A shallow embedding of the transform in
    [example_component.story.tsx] (second document of that file): the
    jscodeshift program that rewrites chained [storiesOf(...).add(...)]
    registrations into module exports.

    The syntax tree is the one the transform walks.  Expressions are a
    single untyped [node] type, as in ESTree, so that the dynamic field
    reads of the source ([call.node.callee.property.name], ...) keep their
    meaning on every node shape; a module is the list of its top-level
    statements.  [Other] stands for every expression kind that has none of
    the fields the transform reads, and [OtherStatement], [OtherDeclaration]
    for the remaining statements and declarations; the statements that a
    function or block body below them holds are not represented, so a chain
    statement nested there, which [find] reaches as well, is outside the
    model.  Statements free of such nodes are the [plain_statement]s.

    Parsing, printing ([toSource]) and [prettify] are external; the tree
    part of the transform is [storiesofTransformer], the text part is
    [render]. *)

From Stdlib Require Import NArith.
From stdpp Require Import base option list strings gmap.

Set Warnings "-register-all,-clear-no-such-hyp".
Open Scope string_scope.
Open Scope nat_scope.
Open Scope list_scope.
Open Scope stdpp_scope.

(** ** Exceptions

    A JavaScript exception (a [TypeError] on a field read of [undefined], a
    failed builder check of ast-types, a path operation on a path that is no
    array member) aborts the whole transform. *)

Inductive result (A : Type) : Type :=
| Ok (a : A)
| Throw.
Arguments Ok {A} a.
Arguments Throw {A}.

#[global] Instance result_ret : MRet result := fun _ a => Ok a.
#[global] Instance result_bind : MBind result :=
  fun _ _ f r => match r with Ok a => f a | Throw => Throw end.

(** [defined o]: reading through a value that may be [undefined]. *)
Definition defined {A} (o : option A) : result A :=
  match o with Some a => Ok a | None => Throw end.

(** [check b]: a builder that throws unless its argument passes [b]. *)
Definition check (b : bool) : result unit :=
  if b then Ok () else Throw.

(** [collect rs]: run the computations left to right, stop at the first
    exception. *)
Fixpoint collect {A} (rs : list (result A)) : result (list A) :=
  match rs with
  | [] => Ok []
  | r :: rs' => a ← r; l ← collect rs'; Ok (a :: l)
  end.

(** ** Syntax trees *)

Inductive node : Type :=
| Identifier (name : string)
| StringLiteral (value : string)
| Literal (value : string)                    (* built by [j.literal] *)
| CallExpression (callee : node) (arguments : list node)
| MemberExpression (object property : node)
| ObjectExpression (properties : list node)
| ObjectPattern (properties : list node)
| Property (key value : node)                 (* [Property] / [ObjectProperty] *)
| ArrayExpression (elements : list node)
| AssignmentExpression (operator : string) (left right : node)
| SpreadElement (argument : node)             (* [...x] as argument or member *)
| Other (type : string) (children : list node).

Inductive declarator : Type :=
| VariableDeclarator (id : node) (init : option node).

Inductive declaration : Type :=
| VariableDeclaration (kind : string) (declarations : list declarator)
| OtherDeclaration (type : string) (id : option node) (children : list node).

Inductive import_specifier : Type :=
| ImportSpecifier (imported local : node)
| ImportDefaultSpecifier (local : node)
| ImportNamespaceSpecifier (local : node).

Inductive export_specifier : Type :=
| ExportSpecifier (local exported : node).

Inductive statement : Type :=
| ExpressionStatement (expression : node)
| Declaration (d : declaration)
| ImportDeclaration (specifiers : list import_specifier) (source : string)
| ExportNamedDeclaration (decl : option declaration)
                         (specifiers : list export_specifier)
| ExportDefaultDeclaration (decl : node)
| ExportDeclaration (default : bool) (decl : declaration)
                                              (* built by [j.exportDeclaration] *)
| OtherStatement (type : string) (children : list node).

(** The tree of a module: [root.find] walks these statements in order. *)
Abbreviation Program := (list statement).

(** ** Field reads *)

Definition node_name (n : node) : option string :=
  match n with Identifier s => Some s | _ => None end.

Definition node_property (n : node) : option node :=
  match n with MemberExpression _ p => Some p | _ => None end.

Definition node_properties (n : node) : option (list node) :=
  match n with
  | ObjectExpression ps | ObjectPattern ps => Some ps
  | _ => None
  end.

Definition node_key (n : node) : option node :=
  match n with Property k _ => Some k | _ => None end.

Definition node_value (n : node) : option node :=
  match n with Property _ v => Some v | _ => None end.

Definition node_callee (n : node) : option node :=
  match n with CallExpression c _ => Some c | _ => None end.

Definition node_arguments (n : node) : list node :=
  match n with CallExpression _ args => args | _ => [] end.

Definition is_StringLiteral (n : node) : bool :=
  match n with StringLiteral _ => true | _ => false end.

Definition is_CallExpression (n : node) : bool :=
  match n with CallExpression _ _ => true | _ => false end.

Definition is_Identifier (n : node) : bool :=
  match n with Identifier _ => true | _ => false end.

(** What the builders of ast-types accept: an [Expression] as the [init] of
    a declarator, an [Expression] or a [Pattern] as the [value] of a
    property.  A spread element and a property are neither. *)
Definition is_Expression (n : node) : bool :=
  match n with
  | SpreadElement _ | Property _ _ | ObjectPattern _ => false
  | _ => true
  end.

Definition is_value (n : node) : bool :=
  match n with
  | SpreadElement _ | Property _ _ => false
  | _ => true
  end.

(** [x === 'lit'] where [x] may be [undefined]. *)
Definition is_string (o : option string) (lit : string) : bool :=
  match o with Some s => String.eqb s lit | None => false end.

(** ** Traversal: [find]

    [find] visits the tree in pre-order, the fields of a node in their
    declared order ([callee] before [arguments], [object] before
    [property]), and never reports the node it starts from. *)

Fixpoint subnodes (n : node) : list node :=
  n :: match n with
       | Identifier _ | StringLiteral _ | Literal _ => []
       | CallExpression c args => subnodes c ++ flat_map subnodes args
       | MemberExpression o p => subnodes o ++ subnodes p
       | ObjectExpression ps | ObjectPattern ps => flat_map subnodes ps
       | Property k v => subnodes k ++ subnodes v
       | ArrayExpression es => flat_map subnodes es
       | AssignmentExpression _ l r => subnodes l ++ subnodes r
       | SpreadElement a => subnodes a
       | Other _ cs => flat_map subnodes cs
       end.

Definition descendants (n : node) : list node := tail (subnodes n).

Definition option_nodes (o : option node) : list node :=
  match o with Some n => [n] | None => [] end.

Definition declarator_children (d : declarator) : list node :=
  match d with VariableDeclarator i init => i :: option_nodes init end.

Definition declaration_children (d : declaration) : list node :=
  match d with
  | VariableDeclaration _ ds => flat_map declarator_children ds
  | OtherDeclaration _ i cs => option_nodes i ++ cs
  end.

Definition import_specifier_children (s : import_specifier) : list node :=
  match s with
  | ImportSpecifier i l => [i; l]
  | ImportDefaultSpecifier l | ImportNamespaceSpecifier l => [l]
  end.

Definition export_specifier_children (s : export_specifier) : list node :=
  match s with ExportSpecifier l e => [l; e] end.

Definition statement_children (s : statement) : list node :=
  match s with
  | ExpressionStatement e => [e]
  | Declaration d => declaration_children d
  | ImportDeclaration specs _ => flat_map import_specifier_children specs
  | ExportNamedDeclaration d specs =>
      from_option declaration_children [] d
      ++ flat_map export_specifier_children specs
  | ExportDefaultDeclaration d => [d]
  | ExportDeclaration _ d => declaration_children d
  | OtherStatement _ cs => cs
  end.

(** Every expression node of the module, in document order. *)
Definition program_nodes (root : Program) : list node :=
  flat_map (fun s => flat_map subnodes (statement_children s)) root.

(** ** The filters of the transform *)

(** [call.node.callee.property && call.node.callee.property.name === m] *)
Definition calls_method (m : string) (call : node) : bool :=
  is_CallExpression call &&
  match node_callee call ≫= node_property with
  | Some p => is_string (node_name p) m
  | None => false
  end.

(** [add.node.arguments.length >= 2 &&
     add.node.arguments[0].type === 'StringLiteral'] *)
Definition story_arguments (call : node) : bool :=
  match node_arguments call with
  | a0 :: _ :: _ => is_StringLiteral a0
  | _ => false
  end.

Definition is_story_add (call : node) : bool :=
  calls_method "add" call && story_arguments call.

(** [call.node.callee.name === 'storiesOf'] *)
Definition is_storiesOf (call : node) : bool :=
  is_CallExpression call &&
  is_string (node_callee call ≫= node_name) "storiesOf".

(** [call.node.arguments.length > 0 &&
     call.node.arguments[0].type === 'StringLiteral'] *)
Definition titled (call : node) : bool :=
  match node_arguments call with
  | a0 :: _ => is_StringLiteral a0
  | [] => false
  end.

Definition is_chain_root (call : node) : bool :=
  is_storiesOf call && titled call.

(** [base.find(j.CallExpression).filter(p)]: the calls strictly below
    [path] that pass [p], in the order [find] reports them. *)
Definition find_calls (p : node -> bool) (path : node) : list node :=
  List.filter p (descendants path).

(** [root.find(j.CallExpression).filter(p)] on the whole module. *)
Definition find_calls_in (p : node -> bool) (root : Program) : list node :=
  List.filter p (program_nodes root).

(** ** [extractDecorators] *)

(** [p.key.name === lit]; a member of [properties] without a [key] (a
    spread element) makes the read throw. *)
Definition keyed (lit : string) (p : node) : result bool :=
  k ← defined (node_key p); Ok (is_string (node_name k) lit).

(** [properties.find((p) => p.key.name === lit)] *)
Fixpoint find_keyed (lit : string) (properties : list node)
  : result (option node) :=
  match properties with
  | [] => Ok None
  | p :: rest =>
      b ← keyed lit p;
      if b : bool then Ok (Some p) else find_keyed lit rest
  end.

(** [properties.filter((p) => p.key.name !== lit)] *)
Fixpoint filter_not_keyed (lit : string) (properties : list node)
  : result (list node) :=
  match properties with
  | [] => Ok []
  | p :: rest =>
      b ← keyed lit p;
      kept ← filter_not_keyed lit rest;
      Ok (if b : bool then kept else p :: kept)
  end.

(** [{ ...parameters, properties }] *)
Definition with_properties (parameters : node) (properties : list node) : node :=
  match parameters with
  | ObjectPattern _ => ObjectPattern properties
  | _ => ObjectExpression properties
  end.

(** The object the source returns, [{ storyParams, storyDecorators }], with
    an absent field as [None]. *)
Record annotations : Type :=
  { storyParams : option node; storyDecorators : option node }.

Definition extractDecorators (parameters : option node) : result annotations :=
  match parameters with
  | None => Ok {| storyParams := None; storyDecorators := None |}
  | Some parameters =>
      match node_properties parameters with
      | None => Ok {| storyParams := Some parameters; storyDecorators := None |}
      | Some properties =>
          found ← find_keyed "decorators" properties;
          match found with
          | None =>
              Ok {| storyParams := Some parameters; storyDecorators := None |}
          | Some p =>
              let storyDecorators := node_value p in
              kept ← filter_not_keyed "decorators" properties;
              if Nat.eqb (length kept) 0 then
                Ok {| storyParams := None; storyDecorators := storyDecorators |}
              else
                Ok {| storyParams := Some (with_properties parameters kept);
                      storyDecorators := storyDecorators |}
          end
      end
  end.

(** ** The identifier registry *)

(** [root.find(j.Identifier).forEach(({ value }) => identifiers.add(value.name))] *)
Definition identifiers_of (root : Program) : gset string :=
  list_to_set (omap node_name (program_nodes root)).

(** [while (identifiers.has(key)) key = `_${key}`]: [fuel] bounds the
    number of tests of the loop condition. *)
Fixpoint fresh (fuel : nat) (identifiers : gset string) (key : string)
  : option string :=
  match fuel with
  | 0 => None
  | S fuel' =>
      if decide (key ∈ identifiers) then fresh fuel' identifiers ("_" +:+ key)
      else Some key
  end.

(** One more test than there are registered identifiers always suffices
    ([unique_key_total]). *)
Definition unique_key (identifiers : gset string) (key : string) : option string :=
  fresh (S (size identifiers)) identifiers key.

(** ** [convertToModuleExports] *)

(** A story read off one [.add] site: the synthesized export identifier, the
    render expression and the fields of the per-story metadata object. *)
Record story : Type :=
  { story_name : string; story_key : string; story_val : node;
    storyAnnotations : list node }.

Definition string_value (n : node) : option string :=
  match n with StringLiteral s | Literal s => Some s | _ => None end.

(** [j.exportDeclaration(false, j.variableDeclaration('const',
      [j.variableDeclarator(j.identifier(key), val)]))] *)
Definition export_const (key : string) (val : node) : statement :=
  ExportDeclaration false
    (VariableDeclaration "const" [VariableDeclarator (Identifier key) (Some val)]).

(** [j.assignmentStatement('=', j.memberExpression(j.identifier(key),
      j.identifier('story')), j.objectExpression(storyAnnotations))] *)
Definition story_assignment (key : string) (storyAnnotations : list node)
  : statement :=
  ExpressionStatement
    (AssignmentExpression "="
       (MemberExpression (Identifier key) (Identifier "story"))
       (ObjectExpression storyAnnotations)).

(** [j.exportDefaultDeclaration(j.objectExpression([
      j.property('init', j.identifier('title'), j.literal(title)),
      ...extraExports]))] *)
Definition default_export (title : string) (extraExports : list node) : statement :=
  ExportDefaultDeclaration
    (ObjectExpression
       (Property (Identifier "title") (Literal title) :: extraExports)).

(** The statements pushed for one story: the named export and, when there
    are annotations, the assignment to the [story] static property. *)
Definition story_statements (s : story) : list statement :=
  export_const (story_key s) (story_val s)
  :: (if Nat.eqb (length (storyAnnotations s)) 0 then []
      else [story_assignment (story_key s) (storyAnnotations s)]).

Definition annotation_properties (a : annotations) : list node :=
  match storyParams a with
  | Some p => [Property (Identifier "parameters") p]
  | None => []
  end ++
  match storyDecorators a with
  | Some d => [Property (Identifier "decorators") d]
  | None => []
  end.

Section Conversion.

(** [sanitizeName] comes from the [support] module, which is not part of
    the sources at hand; every result below holds for any such function. *)
Variable sanitizeName : string -> string.

(** The body of [adds.forEach((add) => ...)] for one [add], up to the
    statements it pushes.  ([storyNameFromExport(key) === name] only resets
    the local [name], which nothing reads afterwards.)  The builders check
    what they are given: [j.variableDeclarator] the render expression,
    [j.property] the parameters and the decorators. *)
Definition read_story (identifiers : gset string) (add : node) : result story :=
  let args := node_arguments add in
  name ← defined (args !! 0 ≫= string_value);
  key ← defined (unique_key identifiers (sanitizeName name));
  val ← defined (args !! 1);
  _ ← check (is_Expression val);
  a ← (if Nat.ltb 2 (length args) then extractDecorators (args !! 2)
       else Ok {| storyParams := None; storyDecorators := None |});
  _ ← check (from_option is_value true (storyParams a));
  _ ← check (from_option is_value true (storyDecorators a));
  Ok {| story_name := name; story_key := key; story_val := val;
        storyAnnotations := annotation_properties a |}.

(** [adds.forEach], threading the registry: [identifiers.add(key)]. *)
Fixpoint read_stories (identifiers : gset string) (adds : list node)
  : result (list story) :=
  match adds with
  | [] => Ok []
  | add :: rest =>
      s ← read_story identifiers add;
      others ← read_stories ({[story_key s]} ∪ identifiers) rest;
      Ok (s :: others)
  end.

(** [decorators]: one entry per [.addDecorator] call, [undefined] when the
    call has no argument; [j.arrayExpression] rejects [undefined]. *)
Definition decorators_export (path : node) : result (list node) :=
  let decorators :=
    map (fun add => node_arguments add !! 0)
        (find_calls (calls_method "addDecorator") path) in
  if Nat.eqb (length decorators) 0 then Ok []
  else
    elements ← collect (map defined (rev decorators));
    Ok [Property (Identifier "decorators") (ArrayExpression elements)].

(** [parameters]: each call pushes its own properties reversed, and the
    whole list is reversed at the end. *)
Definition parameters_export (path : node) : result (list node) :=
  pushed ← collect
    (map (fun add =>
            a0 ← defined (node_arguments add !! 0);
            params ← defined (node_properties a0);
            Ok (rev params))
         (find_calls (calls_method "addParameters") path));
  let parameters := concat pushed in
  if Nat.eqb (length parameters) 0 then Ok []
  else Ok [Property (Identifier "parameters") (ObjectExpression (rev parameters))].

(** [excludeStories]: [j.literal] rejects an [undefined] name. *)
Definition excludeStories_export (originalExports : list (option string))
  : result (list node) :=
  if Nat.eqb (length originalExports) 0 then Ok []
  else
    names ← collect (map defined originalExports);
    Ok [Property (Identifier "excludeStories")
          (ArrayExpression (map Literal names))].

(** The statements that replace the chain statement of [path], in the
    order in which they end up in the module: [statements] is reversed and
    each member is inserted right after the chain statement, which is then
    removed. *)
Definition convertToModuleExports (root : Program) (path : node)
    (originalExports : list (option string)) : result (list statement) :=
  ds ← decorators_export path;
  ps ← parameters_export path;
  es ← excludeStories_export originalExports;
  let extraExports := ds ++ ps ++ es in
  titles ← collect
    (map (fun storiesOf => defined (node_arguments storiesOf !! 0 ≫= string_value))
         (find_calls is_chain_root path));
  let defaults := map (fun title => default_export title extraExports) titles in
  let adds := rev (find_calls is_story_add path) ++ [path] in
  stories ← read_stories (identifiers_of root) adds;
  Ok (defaults ++ flat_map story_statements stories).

End Conversion.

(** ** [storiesofTransformer] *)

(** *** The original named exports *)

(** [const { name, properties } = decl.id]: a non-empty [name] is pushed,
    otherwise the key names of [properties]. *)
Definition declarator_exports (d : declarator) : result (list (option string)) :=
  match d with
  | VariableDeclarator i _ =>
      match node_name i with
      | Some name => Ok (if String.eqb name "" then [] else [Some name])
      | None =>
          match node_properties i with
          | Some properties =>
              collect (map (fun prop => k ← defined (node_key prop); Ok (node_name k))
                           properties)
          | None => Ok []
          end
      end
  end.

(** The names one [ExportNamedDeclaration] pushes to [originalExports]; a
    name read off a node without [name] is [undefined] ([None]). *)
Definition statement_exports (s : statement) : result (list (option string)) :=
  match s with
  | ExportNamedDeclaration (Some (VariableDeclaration _ declarations)) _ =>
      names ← collect (map declarator_exports declarations); Ok (concat names)
  | ExportNamedDeclaration (Some (OtherDeclaration _ (Some i) _)) _ =>
      Ok [node_name i]
  | ExportNamedDeclaration (Some (OtherDeclaration _ None _)) _ => Ok []
  | ExportNamedDeclaration None specifiers =>
      Ok (map (fun sp => match sp with ExportSpecifier _ e => node_name e end)
              specifiers)
  | _ => Ok []
  end.

Definition original_exports (root : Program) : result (list (option string)) :=
  names ← collect (map statement_exports root); Ok (concat names).

(** *** The top-level [.add] calls *)

(** The story-shaped [.add] calls of a statement whose parent is an
    [ExpressionStatement] or a [VariableDeclarator], in document order. *)
Definition top_level_adds (s : statement) : list node :=
  match s with
  | ExpressionStatement e => List.filter is_story_add [e]
  | Declaration (VariableDeclaration _ ds)
  | ExportNamedDeclaration (Some (VariableDeclaration _ ds)) _
  | ExportDeclaration _ (VariableDeclaration _ ds) =>
      List.filter is_story_add (flat_map declarator_children ds)
  | _ => []
  end.

(** Whether the statement of such a call ([path.parent], or
    [path.parent.parent] below a declarator) is a member of the module body:
    a [VariableDeclaration] held in the [declaration] field of an export is
    not, and [insertAfter] throws there. *)
Definition in_body (s : statement) : bool :=
  match s with
  | ExpressionStatement _ | Declaration _ => true
  | _ => false
  end.

Section Rewriting.

Variable sanitizeName : string -> string.

(** [.forEach((path) => convertToModuleExports(path, originalExports))]
    over the module, [done] being the statements already passed (with
    their replacements) and [todo] those still ahead.  A second top-level
    [.add] of one declaration finds its statement already removed, and
    the path operations throw. *)
Fixpoint rewrite_chains (originalExports : list (option string))
    (done todo : Program) : result Program :=
  match todo with
  | [] => Ok done
  | s :: rest =>
      match top_level_adds s with
      | [] => rewrite_chains originalExports (done ++ [s]) rest
      | add :: more =>
          stmts ← convertToModuleExports sanitizeName (done ++ s :: rest)
                    add originalExports;
          if in_body s && Nat.eqb (length more) 0
          then rewrite_chains originalExports (done ++ stmts) rest
          else Throw
      end
  end.

End Rewriting.

(** *** Removing the [storiesOf] import *)

(** [spec.node.imported.name === 'storiesOf'] on an [ImportSpecifier] *)
Definition imports_storiesOf (sp : import_specifier) : bool :=
  match sp with
  | ImportSpecifier imported _ => is_string (node_name imported) "storiesOf"
  | _ => false
  end.

(** The [forEach] over the matching specifiers of one import, [kept] being
    the specifiers already passed and [todo] those still ahead: a specifier
    is removed alone while the import has more than one specifier at that
    moment, otherwise the whole import goes ([None]). *)
Fixpoint remove_specifiers (kept todo : list import_specifier)
  : option (list import_specifier) :=
  match todo with
  | [] => Some kept
  | sp :: rest =>
      if imports_storiesOf sp then
        if Nat.ltb 1 (length (kept ++ sp :: rest))
        then remove_specifiers kept rest
        else None
      else remove_specifiers (kept ++ [sp]) rest
  end.

Definition prune_import (s : statement) : list statement :=
  match s with
  | ImportDeclaration specifiers source =>
      if String.prefix "@storybook/" source then
        match remove_specifiers [] specifiers with
        | Some specifiers' => [ImportDeclaration specifiers' source]
        | None => []
        end
      else [s]
  | _ => [s]
  end.

Definition prune_imports (root : Program) : Program :=
  flat_map prune_import root.

(** *** The transform on trees *)

Record file : Type := { path : string; source : Program }.

(** The two calls of [warn], with the count and the file path they print. *)
Inductive warning : Type :=
| Skipping (count : nat) (path : string)
    (* Found n 'storiesOf' calls but existing default export, SKIPPING *)
| FixByHand (count : nat) (path : string).
    (* [WARNING] Found n 'storiesOf' calls, PLEASE FIX BY HAND *)

(** The three [return] statements, each with the tree it prints. *)
Inductive returned : Type :=
| Untouched (root : Program)   (* return root.toSource() *)
| Printed (root : Program)     (* return source *)
| Cleaned (root : Program).    (* return prettify(source.replace(...)) *)

Definition tree (r : returned) : Program :=
  match r with Untouched root | Printed root | Cleaned root => root end.

Definition is_ExportDefaultDeclaration (s : statement) : bool :=
  match s with ExportDefaultDeclaration _ => true | _ => false end.

Section Transformer.

Variable sanitizeName : string -> string.

Definition storiesofTransformer (f : file) : result (list warning * returned) :=
  let root := source f in
  let initialStoriesOf := find_calls_in is_storiesOf root in
  let defaultExports := List.filter is_ExportDefaultDeclaration root in
  if Nat.ltb 0 (length defaultExports) then
    Ok (if Nat.ltb 0 (length initialStoriesOf)
        then [Skipping (length initialStoriesOf) (path f)] else [],
        Untouched root)
  else
    originalExports ← original_exports root;
    rewritten ← rewrite_chains sanitizeName originalExports [] root;
    let pruned := prune_imports rewritten in
    if Nat.ltb 1 (length initialStoriesOf) then
      Ok ([FixByHand (length initialStoriesOf) (path f)], Printed pruned)
    else
      Ok ([], Cleaned pruned).

End Transformer.

(** ** The text passes *)

(** Source text as UTF-16 code units. *)
Abbreviation text := (list N).

Definition of_string (s : string) : text :=
  map Ascii.N_of_ascii (String.list_ascii_of_string s).

(** The characters [.] does not match: LF, CR, U+2028, U+2029. *)
Definition line_terminator (c : N) : bool :=
  N.eqb c 10 || N.eqb c 13 || N.eqb c 8232 || N.eqb c 8233.

(** [strip_prefix p s]: what follows [p] in [s] when [s] starts with [p]. *)
Fixpoint strip_prefix (p s : text) : option text :=
  match p, s with
  | [], _ => Some s
  | c :: p', d :: s' => if N.eqb c d then strip_prefix p' s' else None
  | _ :: _, [] => None
  end.

(** What [.*] leaves: the text from the next line terminator on. *)
Fixpoint after_line (s : text) : text :=
  match s with
  | [] => []
  | c :: s' => if line_terminator c then s else after_line s'
  end.

(** The literal part of [/const stories = storiesOf\(.*/]. *)
Definition stories_pattern : text := of_string "const stories = storiesOf(".

(** [source.replace(/const stories = storiesOf\(.*/, '')]: the leftmost
    match is deleted, nothing else. *)
Fixpoint replace_stories (s : text) : text :=
  match strip_prefix stories_pattern s with
  | Some rest => after_line rest
  | None =>
      match s with
      | [] => []
      | c :: s' => c :: replace_stories s'
      end
  end.

Record print_options : Type :=
  { trailingComma : bool; quote : string; tabWidth : nat }.

Section Text.

(** The printer of recast and the [prettify] of the [support] module. *)
Variable toSource : option print_options -> Program -> text.
Variable prettify : text -> text.

Definition render (r : returned) : text :=
  match r with
  | Untouched root => toSource None root
  | Printed root =>
      toSource (Some {| trailingComma := true; quote := "single"; tabWidth := 2 |})
               root
  | Cleaned root =>
      prettify
        (replace_stories
           (toSource
              (Some {| trailingComma := true; quote := "single"; tabWidth := 2 |})
              root))
  end.

End Text.

(** ** Auxiliary notions for the statements below *)

(** [key] after [n] turns of the loop body. *)
Definition underscored (n : nat) (key : string) : string :=
  Nat.iter n (fun k => "_" +:+ k) key.

(** The identifier a statement of the emitted shape [export const k = v]
    binds. *)
Definition exported_key (s : statement) : option string :=
  match s with
  | ExportDeclaration _
      (VariableDeclaration _ [VariableDeclarator (Identifier k) _]) => Some k
  | _ => None
  end.


(** The statements a warning-free run may leave in the module body: none of
    them is a story chain any more. *)
Definition no_chain_left (s : statement) : Prop :=
  in_body s = true → top_level_adds s = [].

(** The imports of a module, in order. *)
Definition import_of (s : statement) : option (list import_specifier * string) :=
  match s with
  | ImportDeclaration specifiers source => Some (specifiers, source)
  | _ => None
  end.

Definition imports_of (root : Program) : list (list import_specifier * string) :=
  omap import_of root.

(** What becomes of one import: an import from a ["@storybook/"] module
    loses its [storiesOf] specifiers, and goes as a whole when it has
    specifiers and all of them import [storiesOf]; any other import stays. *)
Definition pruned_import (i : list import_specifier * string)
  : list (list import_specifier * string) :=
  if String.prefix "@storybook/" i.2 then
    if forallb imports_storiesOf i.1 && negb (Nat.eqb (length i.1) 0) then []
    else [(List.filter (fun sp => negb (imports_storiesOf sp)) i.1, i.2)]
  else [i].

(** ** Fluent chains

    [receiver.m1(args1).m2(args2)...]: the call of the last link is the
    outermost node, the receiver the innermost. *)

Definition call_method (receiver : node) (method : string) (args : list node)
  : node :=
  CallExpression (MemberExpression receiver (Identifier method)) args.

Abbreviation link := (string * list node)%type.

(** The calls of the links, in source order. *)
Fixpoint chain_calls (receiver : node) (links : list link) : list node :=
  match links with
  | [] => []
  | l :: rest =>
      let call := call_method receiver l.1 l.2 in
      call :: chain_calls call rest
  end.

(** The whole chain expression. *)
Definition chain (receiver : node) (links : list link) : node :=
  foldl (fun r l => call_method r l.1 l.2) receiver links.

(** A list of expressions below which [find] meets no call passing [p]. *)
Definition quiet (p : node -> bool) (args : list node) : Prop :=
  List.filter p (flat_map subnodes args) = [].


(** The decorator of an [.addDecorator] link and the fields of an
    [.addParameters] link. *)
Definition decorator_site (l : link) : option node :=
  if String.eqb l.1 "addDecorator" then l.2 !! 0 else None.

Definition parameters_site (l : link) : option (list node) :=
  if String.eqb l.1 "addParameters" then l.2 !! 0 ≫= node_properties else None.

(** ** Sample modules

    The story names of the samples are identifiers already, so that name
    sanitizing leaves them as they are. *)

Definition keep_name (name : string) : string := name.

Definition storiesOf_call (title : string) : node :=
  CallExpression (Identifier "storiesOf") [StringLiteral title; Identifier "module"].

Definition storybook_import : statement :=
  ImportDeclaration
    [ImportSpecifier (Identifier "storiesOf") (Identifier "storiesOf")]
    "@storybook/react".


(** [import { storiesOf } from '@storybook/react';
     export default { title: 'A' };
     storiesOf('A', module).add('First', f);] *)
Definition default_and_chain : file :=
  {| path := "conflict.stories.js";
     source :=
       [ storybook_import;
         ExportDefaultDeclaration
           (ObjectExpression [Property (Identifier "title") (StringLiteral "A")]);
         ExpressionStatement
           (chain (storiesOf_call "A")
                  [("add", [StringLiteral "First"; Identifier "f"])]) ] |}.

(** [import { storiesOf } from './legacy';
     storiesOf('A', module).add('First', f);] *)
Definition other_import : file :=
  {| path := "legacy.stories.js";
     source :=
       [ ImportDeclaration
           [ImportSpecifier (Identifier "storiesOf") (Identifier "storiesOf")]
           "./legacy";
         ExpressionStatement
           (chain (storiesOf_call "A")
                  [("add", [StringLiteral "First"; Identifier "f"])]) ] |}.

(** [import Storybook, { storiesOf } from '@storybook/react';
     storiesOf('A', module).add('First', f);] *)
Definition default_specifier_import : file :=
  {| path := "mixed.stories.js";
     source :=
       [ ImportDeclaration
           [ImportDefaultSpecifier (Identifier "Storybook");
            ImportSpecifier (Identifier "storiesOf") (Identifier "storiesOf")]
           "@storybook/react";
         ExpressionStatement
           (chain (storiesOf_call "A")
                  [("add", [StringLiteral "First"; Identifier "f"])]) ] |}.

(** [p.key.name === lit] on a member that has a key. *)
Definition has_key (lit : string) (p : node) : bool :=
  match node_key p with
  | Some k => is_string (node_name k) lit
  | None => false
  end.

Definition is_Property (p : node) : bool :=
  match p with Property _ _ => true | _ => false end.

(** [import { storiesOf } from '@storybook/react';
     import { First } from './First';
     storiesOf('A', module).add('First', First).add('First', g);] *)
Definition name_collision : file :=
  {| path := "collision.stories.js";
     source :=
       [ storybook_import;
         ImportDeclaration
           [ImportSpecifier (Identifier "First") (Identifier "First")] "./First";
         ExpressionStatement
           (chain (storiesOf_call "A")
                  [("add", [StringLiteral "First"; Identifier "First"]);
                   ("add", [StringLiteral "First"; Identifier "g"])]) ] |}.

(** [const s = storiesOf('A', module);
     s.add('First', f);] *)
Definition leftover_binding : file :=
  {| path := "leftover.stories.js";
     source :=
       [ Declaration
           (VariableDeclaration "const"
              [VariableDeclarator (Identifier "s") (Some (storiesOf_call "A"))]);
         ExpressionStatement
           (chain (Identifier "s")
                  [("add", [StringLiteral "First"; Identifier "f"])]) ] |}.

(** [const stories = storiesOf('A', module);
     stories.add('First', f);] *)
Definition stories_binding : file :=
  {| path := "stories.stories.js";
     source :=
       [ Declaration
           (VariableDeclaration "const"
              [VariableDeclarator (Identifier "stories") (Some (storiesOf_call "A"))]);
         ExpressionStatement
           (chain (Identifier "stories")
                  [("add", [StringLiteral "First"; Identifier "f"])]) ] |}.

(** A printer for the samples: whatever the tree, the text given. *)
Definition print_as (t : string) : option print_options -> Program -> text :=
  fun _ _ => of_string t.

(** The two optional fields of the default export. *)
Definition decorators_property (decorators : list node) : list node :=
  if Nat.eqb (length decorators) 0 then []
  else [Property (Identifier "decorators") (ArrayExpression decorators)].

Definition parameters_property (parameters : list node) : list node :=
  if Nat.eqb (length parameters) 0 then []
  else [Property (Identifier "parameters") (ObjectExpression parameters)].


(** [import { storiesOf } from '@storybook/react';
     import { Button } from './Button';
     storiesOf('Button', module)
       .addDecorator(d1)
       .addParameters({ a: one, b: two })
       .add('First', f)
       .addDecorator(d2)
       .addParameters({ c: three })
       .add('Second', g)
       .add('Third', h);
     export const helper = Button;] *)
Definition button_links : list link :=
  [ ("addDecorator", [Identifier "d1"]);
    ("addParameters",
       [ObjectExpression [Property (Identifier "a") (Identifier "one");
                          Property (Identifier "b") (Identifier "two")]]);
    ("add", [StringLiteral "First"; Identifier "f"]);
    ("addDecorator", [Identifier "d2"]);
    ("addParameters",
       [ObjectExpression [Property (Identifier "c") (Identifier "three")]]);
    ("add", [StringLiteral "Second"; Identifier "g"]);
    ("add", [StringLiteral "Third"; Identifier "h"]) ].

Definition button_stories : file :=
  {| path := "button.stories.js";
     source :=
       [ storybook_import;
         ImportDeclaration
           [ImportSpecifier (Identifier "Button") (Identifier "Button")] "./Button";
         ExpressionStatement (chain (storiesOf_call "Button") button_links);
         ExportNamedDeclaration
           (Some (VariableDeclaration "const"
                    [VariableDeclarator (Identifier "helper")
                       (Some (Identifier "Button"))]))
           [] ] |}.

(** The calls the module-level metadata is read from. *)
Definition is_metadata_call (call : node) : bool :=
  is_chain_root call || calls_method "addDecorator" call
  || calls_method "addParameters" call.

(** [storiesOf('title', ...rest)] *)
Definition chain_root (title : string) (rest : list node) : node :=
  CallExpression (Identifier "storiesOf") (StringLiteral title :: rest).

(** What the transform makes of [button_stories]. *)
Definition button_rewritten : Program :=
  [ ImportDeclaration
      [ImportSpecifier (Identifier "Button") (Identifier "Button")] "./Button";
    ExportDefaultDeclaration
      (ObjectExpression
         [ Property (Identifier "title") (Literal "Button");
           Property (Identifier "decorators")
             (ArrayExpression [Identifier "d1"; Identifier "d2"]);
           Property (Identifier "parameters")
             (ObjectExpression
                [ Property (Identifier "a") (Identifier "one");
                  Property (Identifier "b") (Identifier "two");
                  Property (Identifier "c") (Identifier "three") ]);
           Property (Identifier "excludeStories")
             (ArrayExpression [Literal "helper"]) ]);
    ExportDeclaration false
      (VariableDeclaration "const"
         [VariableDeclarator (Identifier "First") (Some (Identifier "f"))]);
    ExportDeclaration false
      (VariableDeclaration "const"
         [VariableDeclarator (Identifier "Second") (Some (Identifier "g"))]);
    ExportDeclaration false
      (VariableDeclaration "const"
         [VariableDeclarator (Identifier "Third") (Some (Identifier "h"))]);
    ExportNamedDeclaration
      (Some (VariableDeclaration "const"
               [VariableDeclarator (Identifier "helper")
                  (Some (Identifier "Button"))]))
      [] ].

(** What [rewrite_chains] does to one statement: it stays, or it is a chain
    statement of the body and gives way to the statements of its
    conversion. *)
Definition rewritten_to (sanitizeName : string -> string)
    (originalExports : list (option string))
    (s : statement) (piece : list statement) : Prop :=
  (top_level_adds s = [] ∧ piece = [s]) ∨
  (∃ add root, top_level_adds s = [add] ∧ in_body s = true ∧
     convertToModuleExports sanitizeName root add originalExports = Ok piece).

(** ** Further notions and samples *)

(** The [excludeStories] field of the default export. *)
Definition excludeStories_property (names : list string) : list node :=
  if Nat.eqb (length names) 0 then []
  else [Property (Identifier "excludeStories") (ArrayExpression (map Literal names))].

(** [import { storiesOf } from '@storybook/react';
     const title = 'A';
     registry.add(title, f);
     export const helper = f;] *)
Definition no_story_module : file :=
  {| path := "plain.js";
     source :=
       [ storybook_import;
         Declaration
           (VariableDeclaration "const"
              [VariableDeclarator (Identifier "title") (Some (StringLiteral "A"))]);
         ExpressionStatement
           (chain (Identifier "registry")
                  [("add", [Identifier "title"; Identifier "f"])]);
         ExportNamedDeclaration
           (Some (VariableDeclaration "const"
                    [VariableDeclarator (Identifier "helper") (Some (Identifier "f"))]))
           [] ] |}.

(** [storiesOf('A', module).add('First', f, { ...common, notes: n });] *)
Definition spread_parameters : file :=
  {| path := "spread.stories.js";
     source :=
       [ ExpressionStatement
           (chain (storiesOf_call "A")
                  [("add", [ StringLiteral "First"; Identifier "f";
                             ObjectExpression
                               [ SpreadElement (Identifier "common");
                                 Property (Identifier "notes") (Identifier "n") ] ])]) ] |}.

(** [storiesOf(title, module).add('First', f);] *)
Definition untitled_chain : node :=
  chain (CallExpression (Identifier "storiesOf") [Identifier "title"; Identifier "module"])
        [("add", [StringLiteral "First"; Identifier "f"])].

(** [storiesOf('A', module).add('Same', f);
     storiesOf('B', module).add('Same', g);] *)
Definition same_name_chains : file :=
  {| path := "same.stories.js";
     source :=
       [ ExpressionStatement
           (chain (storiesOf_call "A")
                  [("add", [StringLiteral "Same"; Identifier "f"])]);
         ExpressionStatement
           (chain (storiesOf_call "B")
                  [("add", [StringLiteral "Same"; Identifier "g"])]) ] |}.

(** ** The transform on text *)

Section TextTransform.

Variable sanitizeName : string -> string.

(** [j(file.source)], which throws on text that is no program, the printer
    and [prettify]. *)
Variable parse : text -> result Program.
Variable toSource : option print_options -> Program -> text.
Variable prettify : text -> text.

(** The whole of [storiesofTransformer(file, api, options)]: parse, the
    tree part, and the text it returns. *)
Definition storiesofTransformer_text (path : string) (t : text)
  : result (list warning * text) :=
  root ← parse t;
  wr ← storiesofTransformer sanitizeName {| path := path; source := root |};
  Ok (wr.1, render toSource prettify wr.2).

End TextTransform.

(** ** Plain statements *)

(** A tree built from the node kinds the transform reads only: nothing in
    it stands for a construct that could hold a statement of its own. *)
Fixpoint plain_node (n : node) : bool :=
  match n with
  | Identifier _ | StringLiteral _ | Literal _ => true
  | CallExpression c args => plain_node c && forallb plain_node args
  | MemberExpression o p => plain_node o && plain_node p
  | ObjectExpression ps | ObjectPattern ps => forallb plain_node ps
  | Property k v => plain_node k && plain_node v
  | ArrayExpression es => forallb plain_node es
  | AssignmentExpression _ l r => plain_node l && plain_node r
  | SpreadElement a => plain_node a
  | Other _ _ => false
  end.

Definition plain_statement (s : statement) : bool :=
  match s with
  | Declaration (OtherDeclaration _ _ _)
  | ExportNamedDeclaration (Some (OtherDeclaration _ _ _)) _
  | ExportDeclaration _ (OtherDeclaration _ _ _)
  | OtherStatement _ _ => false
  | _ => forallb plain_node (statement_children s)
  end.

(** The statements the transform has no reason to touch: plain, without a
    top-level story-shaped [.add] call, and no import. *)
Definition left_alone (s : statement) : bool :=
  plain_statement s
  && Nat.eqb (length (top_level_adds s)) 0
  && match import_of s with None => true | Some _ => false end.

(** ** More samples *)


(** [const stories = storiesOf('A', module);
     stories.add('First', f);
     const note = 'const stories = storiesOf(';] *)
Definition note_module : file :=
  {| path := "note.stories.js";
     source :=
       [ Declaration
           (VariableDeclaration "const"
              [VariableDeclarator (Identifier "stories") (Some (storiesOf_call "A"))]);
         ExpressionStatement
           (chain (Identifier "stories")
                  [("add", [StringLiteral "First"; Identifier "f"])]);
         Declaration
           (VariableDeclaration "const"
              [VariableDeclarator (Identifier "note")
                 (Some (StringLiteral "const stories = storiesOf("))]) ] |}.

(** The tree the first run leaves of [note_module], and its print. *)
Definition note_rewritten : Program :=
  [ Declaration
      (VariableDeclaration "const"
         [VariableDeclarator (Identifier "stories") (Some (storiesOf_call "A"))]);
    ExportDeclaration false
      (VariableDeclaration "const"
         [VariableDeclarator (Identifier "First") (Some (Identifier "f"))]);
    Declaration
      (VariableDeclaration "const"
         [VariableDeclarator (Identifier "note")
            (Some (StringLiteral "const stories = storiesOf("))]) ].

Definition note_printed : string :=
  "const stories = storiesOf('A', module);
export const First = f;
const note = 'const stories = storiesOf(';".

(** The text the first run returns for [note_module], and the tree a
    parser reads off it. *)
Definition note_output : string :=
  "
export const First = f;
const note = 'const stories = storiesOf(';".

Definition note_reparsed : Program :=
  [ ExportNamedDeclaration
      (Some (VariableDeclaration "const"
               [VariableDeclarator (Identifier "First") (Some (Identifier "f"))]))
      [];
    Declaration
      (VariableDeclaration "const"
         [VariableDeclarator (Identifier "note")
            (Some (StringLiteral "const stories = storiesOf("))]) ].

(** What the second run returns for [note_output]. *)
Definition note_twice : string :=
  "
export const First = f;
const note = '".

(** A parser for the samples: the tree given for the text given, an
    exception for any other text. *)
Definition parse_as (t : string) (root : Program) : text -> result Program :=
  fun t' => if bool_decide (t' = of_string t) then Ok root else Throw.

(** What the samples print for [button_rewritten]. *)
Definition button_output : string :=
  "import { Button } from './Button';
export default {
  title: 'Button',
  decorators: [d1, d2],
  parameters: { a: one, b: two, c: three },
  excludeStories: ['helper'],
};
export const First = f;
export const Second = g;
export const Third = h;
export const helper = Button;".
(** * Properties *)

(** ** Exceptions and lists *)

Lemma collect_defined_Some {A} (l : list (option A)) (xs : list A) :
  collect (map defined l) = Ok xs → l = map Some xs.
Proof.
  revert xs. induction l as [|[a|] l IH]; intros xs H; simpl in H.
  - by inversion H.
  - destruct (collect (map defined l)) as [ys|] eqn:E; [|done].
    inversion H; subst. simpl. f_equal. by apply IH.
  - done.
Qed.

Lemma collect_length {A} (rs : list (result A)) (xs : list A) :
  collect rs = Ok xs → length xs = length rs.
Proof.
  revert xs. induction rs as [|[a|] rs IH]; intros xs H; simpl in H.
  - by inversion H.
  - destruct (collect rs) as [ys|]; [|done].
    inversion H; subst. simpl. f_equal. by apply IH.
  - done.
Qed.

(** ** The identifier registry *)

Lemma underscored_shift n key :
  underscored n ("_" +:+ key) = underscored (S n) key.
Proof. unfold underscored. by rewrite Nat.iter_succ_r. Qed.

Lemma underscore_length key :
  String.length ("_" +:+ key) = S (String.length key).
Proof. reflexivity. Qed.

Lemma underscored_length n key :
  String.length (underscored n key) = n + String.length key.
Proof.
  unfold underscored. induction n as [|n IH]; [done|].
  by rewrite Nat.iter_succ, underscore_length, IH.
Qed.

Lemma underscored_inj key : Inj eq eq (fun n => underscored n key).
Proof.
  intros n m H. apply (f_equal String.length) in H.
  rewrite !underscored_length in H. lia.
Qed.

Lemma fresh_Some fuel identifiers key k :
  fresh fuel identifiers key = Some k →
  ∃ n, n < fuel ∧ k = underscored n key ∧ (k ∉ identifiers) ∧
       ∀ m, m < n → underscored m key ∈ identifiers.
Proof.
  revert key. induction fuel as [|fuel IH]; intros key H; simpl in H; [done|].
  destruct (decide (key ∈ identifiers)) as [Hin|Hout].
  - destruct (IH _ H) as (n & Hn & -> & Hk & Hm).
    exists (S n). rewrite underscored_shift in Hk |- *.
    split_and!; [lia|done|done|].
    intros [|m] Hlt; [exact Hin|]. rewrite <- underscored_shift. apply Hm. lia.
  - inversion H; subst. exists 0. split_and!; [lia|done|done|]. intros m Hm. lia.
Qed.

Lemma fresh_None fuel identifiers key :
  fresh fuel identifiers key = None →
  ∀ m, m < fuel → underscored m key ∈ identifiers.
Proof.
  revert key. induction fuel as [|fuel IH]; intros key H m Hm; [lia|].
  simpl in H. destruct (decide (key ∈ identifiers)) as [Hin|Hout]; [|done].
  destruct m as [|m]; [exact Hin|].
  rewrite <- underscored_shift. apply IH; [done|lia].
Qed.

(** The loop always ends: among [size identifiers + 1] candidates of
    different lengths one is not registered. *)
Lemma unique_key_total (identifiers : gset string) key :
  ∃ k, unique_key identifiers key = Some k.
Proof.
  unfold unique_key.
  destruct (fresh (S (size identifiers)) identifiers key) as [k|] eqn:E; [by eexists|].
  exfalso.
  pose proof (fresh_None _ _ _ E) as Hall.
  set (cands := (fun n => underscored n key) <$> seq 0 (S (size identifiers))).
  assert (NoDup cands) as Hnd.
  { apply NoDup_fmap_2; [apply underscored_inj | apply NoDup_seq]. }
  assert (list_to_set (C:=gset string) cands ⊆ identifiers) as Hsub.
  { intros x Hx. apply elem_of_list_to_set, list_elem_of_fmap in Hx.
    destruct Hx as (n & -> & Hn). apply Hall.
    apply elem_of_seq in Hn. lia. }
  apply subseteq_size in Hsub.
  rewrite size_list_to_set in Hsub by done.
  unfold cands in Hsub. rewrite length_fmap, length_seq in Hsub. lia.
Qed.

Lemma unique_key_Some (identifiers : gset string) key k :
  unique_key identifiers key = Some k →
  ∃ n, k = underscored n key ∧ (k ∉ identifiers) ∧
       ∀ m, m < n → underscored m key ∈ identifiers.
Proof.
  intros H. destruct (fresh_Some _ _ _ _ H) as (n & _ & ? & ? & ?). eauto.
Qed.

Lemma bind_Ok {A B} (r : result A) (f : A → result B) (b : B) :
  r ≫= f = Ok b → ∃ a, r = Ok a ∧ f a = Ok b.
Proof. destruct r as [a|]; [|done]. intros H. by exists a. Qed.

(** [inv_bind H]: split a successful sequence [x ← r; k] into its steps. *)
Ltac inv_bind H :=
  repeat match type of H with
         | _ ≫= _ = Ok _ =>
             let a := fresh "a" in
             let Ha := fresh "E" in
             apply bind_Ok in H as (a & Ha & H)
         end.

Lemma exported_key_story_statements (stories : list story) :
  omap exported_key (flat_map story_statements stories) = map story_key stories.
Proof.
  induction stories as [|s stories IH]; [done|].
  cbn [flat_map map]. rewrite omap_app, IH. unfold story_statements.
  destruct (Nat.eqb (length (storyAnnotations s)) 0); by simpl.
Qed.

Section Identifiers.

Variable sanitizeName : string -> string.

Lemma read_story_key identifiers add s :
  read_story sanitizeName identifiers add = Ok s →
  unique_key identifiers (sanitizeName (story_name s)) = Some (story_key s) ∧
  node_arguments add !! 0 ≫= string_value = Some (story_name s) ∧
  node_arguments add !! 1 = Some (story_val s).
Proof.
  unfold read_story. intros H. inv_bind H. inversion H; subst; clear H. simpl.
  destruct (node_arguments add !! 0 ≫= string_value) as [name|]; [|done].
  inversion E; subst; clear E.
  destruct (unique_key identifiers (sanitizeName a)) as [k|]; [|done].
  inversion E0; subst; clear E0.
  destruct (node_arguments add !! 1); [|done]. by inversion E1.
Qed.

(** The keys of one [forEach] over [adds]: pairwise distinct, outside the
    registry the loop started from, and each the sanitized name under the
    least number of underscores that the registry of its moment leaves
    free. *)
Lemma read_stories_keys adds : ∀ identifiers stories,
  read_stories sanitizeName identifiers adds = Ok stories →
  NoDup (map story_key stories) ∧
  (∀ k, k ∈ map story_key stories → k ∉ identifiers) ∧
  (∀ before s after, stories = before ++ s :: after →
     ∃ n, story_key s = underscored n (sanitizeName (story_name s)) ∧
          ∀ m, m < n →
            underscored m (sanitizeName (story_name s))
              ∈ identifiers ∪ list_to_set (map story_key before)).
Proof.
  induction adds as [|add rest IH]; intros identifiers stories H; simpl in H.
  - inversion H; subst. split_and!; [constructor|set_solver|].
    intros [|??] ???; discriminate.
  - inv_bind H. inversion H; subst; clear H.
    rename a into s, a0 into others.
    destruct (read_story_key _ _ _ E) as (Hk & _ & _).
    destruct (unique_key_Some _ _ _ Hk) as (n & Hn & Hout & Hmin).
    destruct (IH _ _ E0) as (Hnd & Hfresh & Hshape).
    split_and!.
    + simpl. constructor; [|done]. intros Hin. apply Hfresh in Hin. set_solver.
    + intros k Hin. simpl in Hin. apply elem_of_cons in Hin as [->|Hin]; [done|].
      apply Hfresh in Hin. set_solver.
    + intros [|b before] s' after Heq; simpl in Heq; inversion Heq; subst.
      * exists n. split; [done|]. intros m Hm. specialize (Hmin m Hm). set_solver.
      * destruct (Hshape before s' after eq_refl) as (n' & Hn' & Hmin').
        exists n'. split; [done|]. intros m Hm. specialize (Hmin' m Hm).
        simpl. set_solver.
Qed.

Lemma convertToModuleExports_stories root add originalExports stmts :
  convertToModuleExports sanitizeName root add originalExports = Ok stmts →
  ∃ defaults stories,
    stmts = defaults ++ flat_map story_statements stories ∧
    Forall (fun s => is_ExportDefaultDeclaration s = true) defaults ∧
    length defaults = length (find_calls is_chain_root add) ∧
    read_stories sanitizeName (identifiers_of root)
      (rev (find_calls is_story_add add) ++ [add]) = Ok stories.
Proof.
  unfold convertToModuleExports. intros H. inv_bind H.
  inversion H; subst; clear H.
  eexists _, _. split_and!; [done| | |done].
  - apply Forall_forall. intros s Hs. apply list_elem_of_fmap in Hs.
    by destruct Hs as (t & -> & _).
  - rewrite length_map. apply collect_length in E2. by rewrite length_map in E2.
Qed.

(** C5.  The export identifiers synthesized for the stories of a chain
    are pairwise distinct and differ from every identifier occurring in the
    module; each is the sanitized story name prefixed with underscores,
    one at a time, until it is neither in the module nor the key of an
    earlier story of the chain. *)
Theorem C5_story_identifiers_unique root add originalExports stmts :
  convertToModuleExports sanitizeName root add originalExports = Ok stmts →
  ∃ stories,
    omap exported_key stmts = map story_key stories ∧
    NoDup (map story_key stories) ∧
    (∀ k, k ∈ map story_key stories → k ∉ identifiers_of root) ∧
    (∀ before s after, stories = before ++ s :: after →
       ∃ n, story_key s = underscored n (sanitizeName (story_name s)) ∧
            ∀ m, m < n →
              underscored m (sanitizeName (story_name s))
                ∈ identifiers_of root ∪ list_to_set (map story_key before)).
Proof.
  intros H.
  destruct (convertToModuleExports_stories _ _ _ _ H)
    as (defaults & stories & -> & Hdef & _ & Hread).
  exists stories.
  destruct (read_stories_keys _ _ _ Hread) as (Hnd & Hfresh & Hshape).
  split_and!; [|done..].
  rewrite omap_app, exported_key_story_statements.
  replace (omap exported_key defaults) with (@nil string); [done|].
  clear -Hdef. induction Hdef as [|s l Hs _ IH]; [done|].
  destruct s; try discriminate. by simpl.
Qed.

End Identifiers.

(** ** The walk over the module *)

Section Walk.

Variable sanitizeName : string -> string.

Lemma rewrite_chains_pieces originalExports todo : ∀ done out,
  rewrite_chains sanitizeName originalExports done todo = Ok out →
  ∃ pieces, out = done ++ concat pieces ∧
            Forall2 (rewritten_to sanitizeName originalExports) todo pieces.
Proof.
  induction todo as [|s rest IH]; intros done out H; simpl in H.
  - inversion H; subst. exists []. split; [by rewrite app_nil_r|constructor].
  - destruct (top_level_adds s) as [|add more] eqn:Eadds.
    + destruct (IH _ _ H) as (pieces & -> & HF).
      exists ([s] :: pieces). split; [by rewrite <- app_assoc|].
      constructor; [left; done|done].
    + inv_bind H. rename a into stmts.
      destruct (in_body s) eqn:Ebody; [|done].
      destruct more as [|]; [|done]. simpl in H.
      destruct (IH _ _ H) as (pieces & -> & HF).
      exists (stmts :: pieces). split; [by rewrite <- app_assoc|].
      constructor; [|done]. right. eauto.
Qed.

(** Statements before the first chain statement are passed unchanged. *)
Lemma rewrite_chains_skip originalExports pre : ∀ done todo,
  Forall (fun s => top_level_adds s = []) pre →
  rewrite_chains sanitizeName originalExports done (pre ++ todo)
  = rewrite_chains sanitizeName originalExports (done ++ pre) todo.
Proof.
  induction pre as [|s pre IH]; intros done todo Hpre; simpl.
  - by rewrite app_nil_r.
  - inversion Hpre as [|?? Hs Hrest]; subst. rewrite Hs.
    rewrite IH by done. by rewrite <- app_assoc.
Qed.

Lemma rewrite_chains_none originalExports done todo :
  Forall (fun s => top_level_adds s = []) todo →
  rewrite_chains sanitizeName originalExports done todo = Ok (done ++ todo).
Proof.
  intros H. rewrite <- (app_nil_r todo) at 1.
  by rewrite rewrite_chains_skip.
Qed.

(** The module with a single chain statement: one conversion, on the
    module as it was read, spliced in at the place of the statement. *)
Lemma rewrite_chains_single originalExports pre s post add :
  Forall (fun s => top_level_adds s = []) pre →
  Forall (fun s => top_level_adds s = []) post →
  top_level_adds s = [add] → in_body s = true →
  rewrite_chains sanitizeName originalExports [] (pre ++ s :: post)
  = (stmts ← convertToModuleExports sanitizeName (pre ++ s :: post) add
               originalExports;
     Ok (pre ++ stmts ++ post)).
Proof.
  intros Hpre Hpost Hadd Hbody.
  rewrite rewrite_chains_skip by done. simpl. rewrite Hadd, Hbody. simpl.
  destruct (convertToModuleExports _ _ _ _) as [stmts|]; [|done]. simpl.
  rewrite rewrite_chains_none by done. by rewrite <- app_assoc.
Qed.

(** The statements of a conversion: default exports, named exports and
    assignments to [story]. *)
Lemma converted_statements root add originalExports stmts :
  convertToModuleExports sanitizeName root add originalExports = Ok stmts →
  Forall (fun s => top_level_adds s = [] ∧ in_body s = true ∧ import_of s = None
                   ∨ in_body s = false ∧ import_of s = None) stmts.
Proof.
  intros H.
  destruct (convertToModuleExports_stories _ _ _ _ _ H)
    as (defaults & stories & -> & Hdef & _ & _).
  apply Forall_app. split.
  - eapply Forall_impl; [exact Hdef|]. intros [] ?; try done. by right.
  - clear. induction stories as [|s stories IH]; [constructor|].
    cbn [flat_map]. apply Forall_app. split; [|done].
    unfold story_statements.
    destruct (Nat.eqb _ 0); repeat constructor; by right.
Qed.

End Walk.

(** ** Pruning the imports *)

Lemma remove_specifiers_spec todo : ∀ kept,
  remove_specifiers kept todo
  = if forallb imports_storiesOf todo && Nat.eqb (length kept) 0
       && negb (Nat.eqb (length todo) 0)
    then None
    else Some (kept ++ List.filter (fun sp => negb (imports_storiesOf sp)) todo).
Proof.
  induction todo as [|sp rest IH]; intros kept; simpl.
  - by rewrite andb_false_r, app_nil_r.
  - destruct (imports_storiesOf sp) eqn:Esp; simpl; rewrite IH.
    + rewrite length_app. destruct kept as [|k kept], rest as [|r rest]; simpl;
        rewrite ?andb_true_r, ?andb_false_r; try done.
      * replace (Nat.ltb 1 (S (length kept + 1))) with true; [done|].
        symmetry. apply Nat.ltb_lt. lia.
      * replace (Nat.ltb 1 (S (length kept + S (S (length rest))))) with true;
          [done|].
        symmetry. apply Nat.ltb_lt. lia.
    + rewrite length_app. simpl.
      replace (Nat.eqb (length kept + 1) 0) with false
        by (symmetry; apply Nat.eqb_neq; lia).
      by rewrite andb_false_r, <- app_assoc.
Qed.

Lemma imports_of_app (l1 l2 : Program) :
  imports_of (l1 ++ l2) = imports_of l1 ++ imports_of l2.
Proof. apply omap_app. Qed.

Lemma imports_of_none (l : Program) :
  Forall (fun s => import_of s = None) l → imports_of l = [].
Proof.
  induction 1 as [|s l Hs _ IH]; [done|].
  unfold imports_of in *. simpl. by rewrite Hs.
Qed.

Lemma imports_of_prune_import (s : statement) :
  imports_of (prune_import s) = flat_map pruned_import (imports_of [s]).
Proof.
  destruct s as [| |specifiers src| | | |]; try done.
  unfold imports_of, prune_import, pruned_import. simpl.
  destruct (String.prefix "@storybook/" src); [|done].
  rewrite remove_specifiers_spec. simpl. rewrite andb_true_r.
  by destruct (forallb imports_storiesOf specifiers
               && negb (Nat.eqb (length specifiers) 0)).
Qed.

Lemma imports_of_prune_imports (root : Program) :
  imports_of (prune_imports root) = flat_map pruned_import (imports_of root).
Proof.
  induction root as [|s root IH]; [done|].
  change (prune_imports (s :: root)) with (prune_import s ++ prune_imports root).
  change (s :: root) with ([s] ++ root).
  by rewrite !imports_of_app, flat_map_app, IH, imports_of_prune_import.
Qed.

Lemma prune_imports_app (l1 l2 : Program) :
  prune_imports (l1 ++ l2) = prune_imports l1 ++ prune_imports l2.
Proof. apply flat_map_app. Qed.

Lemma prune_imports_no_import (l : Program) :
  Forall (fun s => import_of s = None) l → prune_imports l = l.
Proof.
  induction 1 as [|s l Hs _ IH]; [done|].
  change (prune_imports (s :: l)) with (prune_import s ++ prune_imports l).
  rewrite IH. by destruct s.
Qed.

Lemma prune_imports_no_chain_left (root : Program) :
  Forall no_chain_left root → Forall no_chain_left (prune_imports root).
Proof.
  induction 1 as [|s l Hs _ IH]; [constructor|].
  change (prune_imports (s :: l)) with (prune_import s ++ prune_imports l).
  apply Forall_app. split; [|done].
  destruct s as [| |specifiers src| | | |]; try by repeat constructor.
  simpl. destruct (String.prefix _ _); [|by repeat constructor].
  destruct (remove_specifiers _ _); by repeat constructor.
Qed.

Lemma prune_imports_default (root : Program) :
  List.filter is_ExportDefaultDeclaration (prune_imports root)
  = List.filter is_ExportDefaultDeclaration root.
Proof.
  induction root as [|s root IH]; [done|].
  change (prune_imports (s :: root)) with (prune_import s ++ prune_imports root).
  rewrite List.filter_app, IH.
  destruct s as [| |specifiers src| | | |]; try done.
  simpl. destruct (String.prefix _ _); [|done].
  by destruct (remove_specifiers _ _).
Qed.

(** ** The guards *)

Section Guards.

Variable sanitizeName : string -> string.

(** C2.  A module with a default export and at least one [storiesOf] call
    is answered with the skip warning and [root.toSource()] of the tree as
    it was parsed: no statement is inserted, deleted or modified. *)
Theorem C2_default_export_conflict (f : file) :
  List.filter is_ExportDefaultDeclaration (source f) ≠ [] →
  find_calls_in is_storiesOf (source f) ≠ [] →
  storiesofTransformer sanitizeName f
  = Ok ([Skipping (length (find_calls_in is_storiesOf (source f))) (path f)],
        Untouched (source f))
  ∧ ∀ toSource prettify,
      render toSource prettify (Untouched (source f)) = toSource None (source f).
Proof.
  intros Hdefault Hcalls. split; [|done]. unfold storiesofTransformer.
  destruct (List.filter is_ExportDefaultDeclaration (source f)); [done|].
  destruct (find_calls_in is_storiesOf (source f)); [done|]. done.
Qed.

Lemma rewritten_no_chain_left originalExports todo pieces :
  Forall2 (rewritten_to sanitizeName originalExports) todo pieces →
  Forall no_chain_left (concat pieces).
Proof.
  induction 1 as [|s piece todo pieces Hs _ IH]; [constructor|].
  simpl. apply Forall_app. split; [|done].
  destruct Hs as [[Hs ->]|(add & root & _ & _ & Hc)].
  - constructor; [intros _; exact Hs | constructor].
  - eapply Forall_impl; [exact (converted_statements _ _ _ _ _ Hc)|].
    intros s' [(? & _)|(Hb & _)] Hbody; [done|congruence].
Qed.


End Guards.

Lemma C2_default_export_conflict_witness :
  storiesofTransformer keep_name default_and_chain
  = Ok ([Skipping 1 "conflict.stories.js"], Untouched (source default_and_chain))
  ∧ ∀ toSource prettify,
      render toSource prettify (Untouched (source default_and_chain))
      = toSource None (source default_and_chain).
Proof.
  apply (C2_default_export_conflict keep_name default_and_chain);
    vm_compute; discriminate.
Defined.



(** ** The [storiesOf] import *)

Section Imports.

Variable sanitizeName : string -> string.

Lemma rewritten_imports originalExports todo pieces :
  Forall2 (rewritten_to sanitizeName originalExports) todo pieces →
  imports_of (concat pieces) = imports_of todo.
Proof.
  induction 1 as [|s piece todo pieces Hs _ IH]; [done|].
  change (s :: todo) with ([s] ++ todo). cbn [concat].
  rewrite !imports_of_app, IH. f_equal.
  destruct Hs as [[Hs ->]|(add & root & Hadd & _ & Hc)]; [done|].
  replace (imports_of [s]) with (@nil (list import_specifier * string))
    by (by destruct s).
  pose proof (converted_statements _ _ _ _ _ Hc) as HF.
  apply imports_of_none. eapply Forall_impl; [exact HF|].
  by intros s' [(_ & _ & ?)|(_ & ?)].
Qed.

(** C7, as the code has it.  After a rewrite the imports of the module are
    those it had, each pruned on its own: an import from a module whose
    name starts with ["@storybook/"] loses every specifier that imports
    [storiesOf], and is deleted as a whole when that leaves it no
    specifier at all; an import from any other module stays as it is. *)
Theorem C7_storybook_import_pruned (f : file) ws r :
  List.filter is_ExportDefaultDeclaration (source f) = [] →
  storiesofTransformer sanitizeName f = Ok (ws, r) →
  imports_of (tree r) = flat_map pruned_import (imports_of (source f)).
Proof.
  intros Hdefault H. unfold storiesofTransformer in H.
  rewrite Hdefault in H. simpl in H. inv_bind H.
  destruct (rewrite_chains_pieces _ _ _ _ _ E0) as (pieces & -> & HF).
  assert (tree r = prune_imports (concat pieces)) as ->.
  { destruct (Nat.ltb 1 _); by inversion H. }
  rewrite imports_of_prune_imports. f_equal. by eapply rewritten_imports.
Qed.

(** C10.  An import from a module whose name does not start with
    ["@storybook/"] is found again, at its place among the statements and
    with all its specifiers ([storiesOf] included), in the tree the
    transform returns. *)
Theorem C10_other_imports_kept (f : file) ws r pre specifiers src post :
  source f = pre ++ ImportDeclaration specifiers src :: post →
  String.prefix "@storybook/" src = false →
  storiesofTransformer sanitizeName f = Ok (ws, r) →
  ∃ pre' post', tree r = pre' ++ ImportDeclaration specifiers src :: post'.
Proof.
  intros Hsrc Hprefix H. unfold storiesofTransformer in H.
  destruct (Nat.ltb 0 (length (List.filter _ (source f)))) eqn:Hdefault.
  - inversion H; subst; clear H. simpl. eauto.
  - inv_bind H.
    destruct (rewrite_chains_pieces _ _ _ _ _ E0) as (pieces & -> & HF).
    assert (tree r = prune_imports (concat pieces)) as ->.
    { destruct (Nat.ltb 1 _); by inversion H. }
    rewrite Hsrc in HF.
    apply Forall2_app_inv_l in HF as (p1 & p2 & _ & HF & ->).
    apply Forall2_cons_inv_l in HF as (piece & p3 & Hpiece & _ & ->).
    destruct Hpiece as [[_ ->]|(add & root & Hadd & _)]; [|done].
    rewrite concat_app, prune_imports_app.
    change (prune_imports (concat ([ImportDeclaration specifiers src] :: p3)))
      with (prune_import (ImportDeclaration specifiers src)
            ++ prune_imports (concat p3)).
    cbn [prune_import]. rewrite Hprefix. simpl. eauto.
Qed.

End Imports.

(** C7 fails as stated: in [other_import] the chain is rewritten and the
    import of [storiesOf] is still there. *)
Lemma C7_counterexample :
  storiesofTransformer keep_name other_import
  = Ok ([],
        Cleaned
          [ ImportDeclaration
              [ImportSpecifier (Identifier "storiesOf") (Identifier "storiesOf")]
              "./legacy";
            ExportDefaultDeclaration
              (ObjectExpression [Property (Identifier "title") (Literal "A")]);
            ExportDeclaration false
              (VariableDeclaration "const"
                 [VariableDeclarator (Identifier "First") (Some (Identifier "f"))]) ]).
Proof. by vm_compute. Qed.

Lemma C7_storybook_import_pruned_witness :
  ∃ ws r,
    storiesofTransformer keep_name default_specifier_import = Ok (ws, r) ∧
    imports_of (tree r)
    = [([ImportDefaultSpecifier (Identifier "Storybook")], "@storybook/react")].
Proof.
  eexists _, _. split; [by vm_compute|].
  exact (C7_storybook_import_pruned keep_name default_specifier_import _ _
           eq_refl eq_refl).
Defined.

Lemma C10_other_imports_kept_witness :
  ∃ ws r pre' post',
    storiesofTransformer keep_name other_import = Ok (ws, r) ∧
    tree r
    = pre' ++ ImportDeclaration
                [ImportSpecifier (Identifier "storiesOf") (Identifier "storiesOf")]
                "./legacy" :: post'.
Proof.
  destruct (C10_other_imports_kept keep_name other_import []
              (Cleaned
                 [ ImportDeclaration
                     [ImportSpecifier (Identifier "storiesOf") (Identifier "storiesOf")]
                     "./legacy";
                   ExportDefaultDeclaration
                     (ObjectExpression [Property (Identifier "title") (Literal "A")]);
                   ExportDeclaration false
                     (VariableDeclaration "const"
                        [VariableDeclarator (Identifier "First")
                           (Some (Identifier "f"))]) ])
              []
              [ImportSpecifier (Identifier "storiesOf") (Identifier "storiesOf")]
              "./legacy"
              [ExpressionStatement
                 (chain (storiesOf_call "A")
                        [("add", [StringLiteral "First"; Identifier "f"])])])
    as (pre' & post' & Htree); [done|done|by vm_compute|].
  eexists _, _, pre', post'. split; [by vm_compute|exact Htree].
Defined.


Lemma C5_story_identifiers_unique_witness :
  ∃ stmts stories,
    convertToModuleExports keep_name (source name_collision)
      (chain (storiesOf_call "A")
             [("add", [StringLiteral "First"; Identifier "First"]);
              ("add", [StringLiteral "First"; Identifier "g"])]) []
    = Ok stmts ∧
    omap exported_key stmts = ["_First"; "__First"] ∧
    omap exported_key stmts = map story_key stories ∧
    NoDup (map story_key stories) ∧
    ∀ k, k ∈ map story_key stories → k ∉ identifiers_of (source name_collision).
Proof.
  eexists _. 
  destruct (C5_story_identifiers_unique keep_name (source name_collision)
              (chain (storiesOf_call "A")
                     [("add", [StringLiteral "First"; Identifier "First"]);
                      ("add", [StringLiteral "First"; Identifier "g"])]) []
              [ ExportDefaultDeclaration
                  (ObjectExpression [Property (Identifier "title") (Literal "A")]);
                export_const "_First" (Identifier "First");
                export_const "__First" (Identifier "g") ])
    as (stories & Hkeys & Hnd & Hfresh & _); [by vm_compute|].
  exists stories. split_and!; [by vm_compute|done|exact Hkeys|exact Hnd|exact Hfresh].
Defined.

(** ** Per-story metadata *)

Lemma find_keyed_properties lit properties :
  Forall (fun p => is_Property p = true) properties →
  find_keyed lit properties = Ok (List.find (has_key lit) properties).
Proof.
  induction 1 as [|p ps Hp _ IH]; [done|].
  destruct p; try discriminate. simpl. unfold has_key. simpl.
  destruct (is_string (node_name p1) lit); [done|]. exact IH.
Qed.


Section Metadata.

Variable sanitizeName : string -> string.


End Metadata.



(** ** The textual clean-up *)

Lemma replace_stories_eq (s : text) :
  replace_stories s
  = match strip_prefix stories_pattern s with
    | Some rest => after_line rest
    | None => match s with [] => [] | c :: s' => c :: replace_stories s' end
    end.
Proof. by destruct s. Qed.

Lemma strip_prefix_app (p s : text) : strip_prefix p (p ++ s) = Some s.
Proof.
  induction p as [|c p IH]; simpl; [by destruct s|]. by rewrite N.eqb_refl.
Qed.

Lemma after_line_app (line rest : text) :
  Forall (fun c => line_terminator c = false) line →
  (rest = [] ∨ ∃ c rest', rest = c :: rest' ∧ line_terminator c = true) →
  after_line (line ++ rest) = rest.
Proof.
  intros Hline Hrest. induction Hline as [|c line Hc _ IH]; simpl.
  - destruct Hrest as [->|(c & rest' & -> & Hc)]; [done|]. simpl. by rewrite Hc.
  - by rewrite Hc.
Qed.

(** The pass deletes the leftmost [const stories = storiesOf(] and what
    follows it on its line. *)
Lemma replace_stories_first (pre line rest : text) :
  (∀ k, k < length pre →
        strip_prefix stories_pattern (drop k (pre ++ stories_pattern ++ line ++ rest))
        = None) →
  Forall (fun c => line_terminator c = false) line →
  (rest = [] ∨ ∃ c rest', rest = c :: rest' ∧ line_terminator c = true) →
  replace_stories (pre ++ stories_pattern ++ line ++ rest) = pre ++ rest.
Proof.
  intros Hpre Hline Hrest. induction pre as [|c pre IH].
  - change (replace_stories (stories_pattern ++ line ++ rest) = rest).
    rewrite replace_stories_eq, strip_prefix_app. by apply after_line_app.
  - pose proof (Hpre 0 ltac:(simpl; lia)) as H0. rewrite drop_0 in H0.
    rewrite replace_stories_eq, H0.
    change ((c :: pre) ++ stories_pattern ++ line ++ rest)
      with (c :: (pre ++ stories_pattern ++ line ++ rest)).
    change ((c :: pre) ++ rest) with (c :: (pre ++ rest)).
    f_equal. apply IH. intros k Hk. apply (Hpre (S k)). simpl. lia.
Qed.

(** Without a match the text stays as it is. *)
Lemma replace_stories_none (s : text) :
  (∀ k, strip_prefix stories_pattern (drop k s) = None) →
  replace_stories s = s.
Proof.
  induction s as [|c s IH]; intros H; rewrite replace_stories_eq;
    pose proof (H 0) as H0; rewrite drop_0 in H0; rewrite H0; [done|].
  f_equal. apply IH. intros k. apply (H (S k)).
Qed.

Section Cleanup.

Variable sanitizeName : string -> string.
Variable toSource : option print_options -> Program -> text.
Variable prettify : text -> text.

(** C8, as the code has it.  A rewrite of a module with at most one
    [storiesOf] call and no default export returns without warning the
    printed tree after one textual pass and [prettify]: the pass deletes the
    leftmost occurrence of the text [const stories = storiesOf(] (the
    binding named [stories], no other) together with the rest of its line,
    and changes nothing when there is no such occurrence. *)
Theorem C8_cleanup_pass (f : file) ws r :
  List.filter is_ExportDefaultDeclaration (source f) = [] →
  length (find_calls_in is_storiesOf (source f)) ≤ 1 →
  storiesofTransformer sanitizeName f = Ok (ws, r) →
  let printed :=
    toSource (Some {| trailingComma := true; quote := "single"; tabWidth := 2 |})
             (tree r) in
  ws = [] ∧
  render toSource prettify r = prettify (replace_stories printed) ∧
  (∀ pre line rest,
     printed = pre ++ stories_pattern ++ line ++ rest →
     (∀ k, k < length pre → strip_prefix stories_pattern (drop k printed) = None) →
     Forall (fun c => line_terminator c = false) line →
     (rest = [] ∨ ∃ c rest', rest = c :: rest' ∧ line_terminator c = true) →
     render toSource prettify r = prettify (pre ++ rest)) ∧
  ((∀ k, strip_prefix stories_pattern (drop k printed) = None) →
   render toSource prettify r = prettify printed).
Proof.
  intros Hdefault Hcount H printed. unfold storiesofTransformer in H.
  rewrite Hdefault in H. simpl in H. inv_bind H.
  replace (Nat.ltb 1 (length (find_calls_in is_storiesOf (source f)))) with false in H
    by (symmetry; apply Nat.ltb_ge; lia).
  inversion H; subst; clear H. simpl in printed.
  split_and!; [done|done| |].
  - intros pre line rest Hprinted Hfirst Hline Hrest. simpl. fold printed.
    rewrite Hprinted in Hfirst |- *. by rewrite replace_stories_first.
  - intros Hnone. simpl. fold printed. by rewrite replace_stories_none.
Qed.

End Cleanup.

(** C8 fails as stated: the rewrite of [leftover_binding] leaves the
    declaration of [s] in the tree, and the pass does not strip its text,
    the binding not being named [stories]. *)
Lemma C8_counterexample :
  storiesofTransformer keep_name leftover_binding
  = Ok ([],
        Cleaned
          [ Declaration
              (VariableDeclaration "const"
                 [VariableDeclarator (Identifier "s") (Some (storiesOf_call "A"))]);
            export_const "First" (Identifier "f") ])
  ∧ render (print_as "const s = storiesOf('A', module);
export const First = f;") (fun t => t)
      (Cleaned
         [ Declaration
             (VariableDeclaration "const"
                [VariableDeclarator (Identifier "s") (Some (storiesOf_call "A"))]);
           export_const "First" (Identifier "f") ])
    = of_string "const s = storiesOf('A', module);
export const First = f;".
Proof. split; by vm_compute. Qed.

Lemma C8_cleanup_pass_witness :
  ∃ ws r,
    storiesofTransformer keep_name stories_binding = Ok (ws, r) ∧
    ws = [] ∧
    render (print_as "const stories = storiesOf('A', module);
export const First = f;") (fun t => t) r
    = of_string "
export const First = f;".
Proof.
  eexists _, _. split; [by vm_compute|].
  destruct (C8_cleanup_pass keep_name
              (print_as "const stories = storiesOf('A', module);
export const First = f;") (fun t => t) stories_binding []
              (Cleaned
                 [ Declaration
                     (VariableDeclaration "const"
                        [VariableDeclarator (Identifier "stories")
                           (Some (storiesOf_call "A"))]);
                   export_const "First" (Identifier "f") ]))
    as (Hws & _ & Hfirst & _); [done|vm_compute; lia|by vm_compute|].
  split; [exact Hws|].
  apply (Hfirst [] (of_string "'A', module);") (of_string "
export const First = f;")).
  - by vm_compute.
  - intros k Hk. simpl in Hk. lia.
  - vm_compute. repeat constructor.
  - right. eexists _, _. split; [by vm_compute|by vm_compute].
Defined.

(** ** [find] on a fluent chain *)

Section Chains.

(** A filter that only calls can pass. *)
Variable p : node -> bool.
Hypothesis p_call : ∀ n, p n = true → is_CallExpression n = true.

Lemma filter_call_method receiver method args :
  List.filter p (subnodes (call_method receiver method args))
  = List.filter p [call_method receiver method args]
    ++ List.filter p (subnodes receiver)
    ++ List.filter p (flat_map subnodes args).
Proof.
  unfold call_method. cbn [subnodes].
  change (?x :: ?l) with ([x] ++ l) at 1.
  rewrite !List.filter_app. f_equal.
  cbn [app List.filter].
  destruct (p (MemberExpression _ _)) eqn:E1; [by apply p_call in E1|].
  destruct (p (Identifier method)) eqn:E2; [by apply p_call in E2|].
  rewrite List.filter_app. cbn [List.filter]. rewrite E2. by rewrite app_nil_r.
Qed.

Lemma chain_snoc receiver links l :
  chain receiver (links ++ [l]) = call_method (chain receiver links) l.1 l.2.
Proof. unfold chain. by rewrite foldl_app. Qed.

Lemma chain_calls_snoc links : ∀ receiver l,
  chain_calls receiver (links ++ [l])
  = chain_calls receiver links ++ [chain receiver (links ++ [l])].
Proof.
  induction links as [|l' links IH]; intros receiver l; [done|].
  cbn [app chain_calls]. by rewrite IH.
Qed.

Lemma filter_chain links : ∀ receiver,
  Forall (fun l => quiet p l.2) links →
  List.filter p (subnodes (chain receiver links))
  = rev (List.filter p (chain_calls receiver links))
    ++ List.filter p (subnodes receiver).
Proof.
  induction links as [|l links IH]; intros receiver Hq; [done|].
  inversion Hq as [|?? Hl Hrest]; subst.
  change (chain receiver (l :: links))
    with (chain (call_method receiver l.1 l.2) links).
  rewrite IH by done. rewrite filter_call_method. rewrite Hl, app_nil_r.
  cbn [chain_calls List.filter].
  destruct (p (call_method receiver l.1 l.2)); cbn [rev app];
    by rewrite <- ?app_assoc.
Qed.

(** What [find] reports below the last call of a chain: the calls of the
    earlier links, last link first, then what it finds in the receiver. *)
Lemma find_calls_chain receiver links l :
  Forall (fun l => quiet p l.2) (links ++ [l]) →
  find_calls p (chain receiver (links ++ [l]))
  = rev (List.filter p (chain_calls receiver links))
    ++ List.filter p (subnodes receiver).
Proof.
  intros Hq. apply Forall_app in Hq as [Hq Hl].
  inversion Hl as [|?? Hl' _]; subst.
  rewrite chain_snoc. unfold find_calls, descendants, call_method.
  cbn [subnodes tail].
  change (?x :: ?l) with ([x] ++ l) at 1.
  rewrite !List.filter_app. cbn [List.filter].
  destruct (p (MemberExpression _ _)) eqn:E1; [by apply p_call in E1|].
  destruct (p (Identifier l.1)) eqn:E2; [by apply p_call in E2|].
  unfold quiet in Hl'. rewrite Hl'. rewrite filter_chain by done.
  by rewrite !app_nil_r.
Qed.

(** Without any condition on the arguments: the calls of the links are met
    in reverse order, whatever else [find] reports in between. *)
Lemma filter_chain_sublist receiver links :
  sublist (List.filter p (chain_calls receiver links))
          (rev (List.filter p (subnodes (chain receiver links)))).
Proof.
  induction links as [|l links IH] using rev_ind; [apply sublist_nil_l|].
  rewrite chain_calls_snoc, chain_snoc, filter_call_method, List.filter_app.
  rewrite !rev_app_distr, <- chain_snoc.
  apply sublist_app; [by apply sublist_inserts_l|].
  cbn [List.filter]. by destruct (p _).
Qed.

Lemma find_calls_chain_sublist receiver links l :
  sublist (List.filter p (chain_calls receiver links))
          (rev (find_calls p (chain receiver (links ++ [l])))).
Proof.
  rewrite chain_snoc. unfold find_calls, descendants, call_method.
  cbn [subnodes tail].
  change (?x :: ?l) with ([x] ++ l) at 1.
  rewrite !List.filter_app. cbn [List.filter].
  destruct (p (MemberExpression _ _)) eqn:E1; [by apply p_call in E1|].
  destruct (p (Identifier l.1)) eqn:E2; [by apply p_call in E2|].
  cbn [app]. rewrite !rev_app_distr.
  apply sublist_inserts_l, sublist_inserts_l, filter_chain_sublist.
Qed.

End Chains.

Lemma calls_method_call m n : calls_method m n = true → is_CallExpression n = true.
Proof. unfold calls_method. by intros [? _]%andb_true_iff. Qed.


Lemma is_chain_root_call n : is_chain_root n = true → is_CallExpression n = true.
Proof.
  unfold is_chain_root, is_storiesOf. by intros [[? _]%andb_true_iff _]%andb_true_iff.
Qed.

Lemma calls_method_call_method receiver m m' args :
  calls_method m (call_method receiver m' args) = String.eqb m' m.
Proof. done. Qed.



(** No call of a link is a chain root: its callee is a member expression. *)
Lemma chain_calls_no_root links : ∀ receiver,
  List.filter is_chain_root (chain_calls receiver links) = [].
Proof. induction links as [|l links IH]; intros receiver; [done|]. simpl. apply IH. Qed.

(** The first arguments of the calls of one method, link by link. *)
Lemma chain_calls_first_arguments m links : ∀ receiver,
  map (fun call => node_arguments call !! 0)
      (List.filter (calls_method m) (chain_calls receiver links))
  = map (fun l : link => l.2 !! 0)
        (List.filter (fun l : link => String.eqb l.1 m) links).
Proof.
  induction links as [|l links IH]; intros receiver; [done|].
  cbn [chain_calls List.filter]. rewrite calls_method_call_method.
  destruct (String.eqb l.1 m); cbn [map]; by rewrite IH.
Qed.


Lemma first_arguments_sites {A} (site : link → option A) (g : node → option A) m
    (links : list link) (xs : list A) :
  (∀ l, site l = if String.eqb l.1 m then l.2 !! 0 ≫= g else None) →
  map (fun l : link => l.2 !! 0 ≫= g)
      (List.filter (fun l : link => String.eqb l.1 m) links) = map Some xs →
  omap site links = xs.
Proof.
  intros Hsite. revert xs. induction links as [|l links IH]; intros xs H.
  - by destruct xs.
  - cbn [List.filter] in H. cbn [omap list_omap]. fold (omap site links).
    rewrite Hsite. destruct (String.eqb l.1 m).
    + destruct xs as [|x xs]; [done|]. cbn [map] in H. inversion H as [[Hx Hxs]].
      rewrite Hx. f_equal. by apply IH.
    + by apply IH.
Qed.

Lemma sublist_omap {A B} (f : A → option B) (l1 l2 : list A) :
  sublist l1 l2 → sublist (omap f l1) (omap f l2).
Proof.
  induction 1 as [|x l1 l2 _ IH|x l1 l2 _ IH]; [constructor|..];
    cbn [omap list_omap]; fold (omap f l1); fold (omap f l2);
    destruct (f x); try done.
  - by apply sublist_skip.
  - by apply sublist_cons.
Qed.

Lemma omap_id_Some {A} (l : list A) : omap id (map Some l) = l.
Proof. induction l as [|x l IH]; [done|]. cbn. by rewrite IH. Qed.


Lemma sublist_concat {A} (L1 L2 : list (list A)) :
  sublist L1 L2 → sublist (concat L1) (concat L2).
Proof.
  induction 1 as [|x L1 L2 _ IH|x L1 L2 _ IH]; [constructor|..]; cbn [concat].
  - by apply sublist_app.
  - by apply sublist_inserts_l.
Qed.

(** The sites of the links of one method, read off their first arguments. *)
Lemma omap_first_arguments {A} (site : link → option A) (g : node → option A) m
    (links : list link) :
  (∀ l, site l = if String.eqb l.1 m then l.2 !! 0 ≫= g else None) →
  omap id (map (fun l : link => l.2 !! 0 ≫= g)
               (List.filter (fun l : link => String.eqb l.1 m) links))
  = omap site links.
Proof.
  intros Hsite. induction links as [|l links IH]; [done|].
  cbn [List.filter omap list_omap]. fold (omap site links). rewrite Hsite.
  destruct (String.eqb l.1 m); [|exact IH].
  cbn [map omap list_omap]. rewrite <- IH. by destruct (l.2 !! 0 ≫= g).
Qed.

Lemma rev_concat_rev {A} (L : list (list A)) :
  rev (concat L) = concat (rev (map (@rev A) L)).
Proof.
  induction L as [|x L IH]; [done|].
  cbn [concat map rev]. rewrite rev_app_distr, IH, concat_app. simpl.
  by rewrite app_nil_r.
Qed.

(** ** The module with one chain *)

Lemma top_level_adds_story s add :
  In add (top_level_adds s) → is_story_add add = true.
Proof.
  destruct s as [e|[]| |[[]|]| |?[]|]; simpl; try done;
    try (by intros [_ ?]%List.filter_In).
  destruct (is_story_add e) eqn:E; [|done]. by intros [<-|[]].
Qed.

Section SingleChain.

Variable sanitizeName : string -> string.


(** With a single chain statement in the body, the transform converts that
    chain on the module as it was read and splices the statements in at its
    place. *)
Lemma single_chain (f : file) pre s post add ws r :
  source f = pre ++ s :: post →
  List.filter is_ExportDefaultDeclaration (source f) = [] →
  Forall (fun s => top_level_adds s = []) pre →
  Forall (fun s => top_level_adds s = []) post →
  in_body s = true → top_level_adds s = [add] →
  storiesofTransformer sanitizeName f = Ok (ws, r) →
  ∃ originalExports stmts,
    original_exports (source f) = Ok originalExports ∧
    convertToModuleExports sanitizeName (source f) add originalExports = Ok stmts ∧
    tree r = prune_imports pre ++ stmts ++ prune_imports post.
Proof.
  intros Hsrc Hdefault Hpre Hpost Hbody Hadd H.
  unfold storiesofTransformer in H. rewrite Hdefault in H. simpl in H.
  inv_bind H. rename a into originalExports, a0 into rewritten.
  rewrite Hsrc in E0.
  rewrite (rewrite_chains_single _ _ _ _ _ _ Hpre Hpost Hadd Hbody) in E0.
  inv_bind E0. rename a into stmts. inversion E0; subst; clear E0.
  exists originalExports, stmts. rewrite Hsrc. split_and!; [by rewrite <- Hsrc|done|].
  assert (tree r = prune_imports (pre ++ stmts ++ post)) as ->.
  { destruct (Nat.ltb 1 _); by inversion H. }
  rewrite !prune_imports_app. f_equal. f_equal.
  apply prune_imports_no_import.
  eapply Forall_impl; [exact (converted_statements _ _ _ _ _ E1)|].
  by intros s' [(_ & _ & ?)|(_ & ?)].
Qed.


End SingleChain.

(** ** Module-level metadata of a chain *)

Lemma quiet_weaken (p q : node → bool) args :
  (∀ n, p n = true → q n = true) → quiet q args → quiet p args.
Proof.
  unfold quiet. intros Hpq. induction (flat_map subnodes args) as [|n l IH]; [done|].
  simpl. destruct (q n) eqn:Eq; [done|]. intros Hq.
  destruct (p n) eqn:Ep; [|by apply IH]. apply Hpq in Ep. congruence.
Qed.

Lemma find_calls_chain_inner (p : node → bool) receiver links :
  (∀ n, p n = true → is_CallExpression n = true) →
  links ≠ [] → p (chain receiver links) = false →
  Forall (fun l : link => quiet p l.2) links →
  find_calls p (chain receiver links)
  = rev (List.filter p (chain_calls receiver links))
    ++ List.filter p (subnodes receiver).
Proof.
  intros Hp Hne Hlast Hq. destruct links as [|l links _] using rev_ind; [done|].
  rewrite (find_calls_chain _ Hp) by done.
  rewrite chain_calls_snoc, List.filter_app. cbn [List.filter].
  by rewrite Hlast, app_nil_r.
Qed.

Lemma filter_chain_root p title rest :
  (∀ n, p n = true → is_CallExpression n = true) →
  quiet p rest →
  List.filter p (subnodes (chain_root title rest))
  = List.filter p [chain_root title rest].
Proof.
  intros Hp Hq. unfold chain_root. cbn [subnodes flat_map app].
  change (?x :: ?y :: ?z :: ?l) with ([x] ++ [y; z] ++ l).
  rewrite !List.filter_app. unfold quiet in Hq. rewrite Hq.
  cbn [List.filter].
  destruct (p (Identifier "storiesOf")) eqn:E1; [by apply Hp in E1|].
  destruct (p (StringLiteral title)) eqn:E2; [by apply Hp in E2|].
  by rewrite !app_nil_r.
Qed.

Lemma collect_properties (calls : list node) pushed :
  collect
    (map (fun add =>
            a0 ← defined (node_arguments add !! 0);
            params ← defined (node_properties a0);
            Ok (rev params)) calls) = Ok pushed →
  map (fun add => node_arguments add !! 0 ≫= node_properties) calls
  = map Some (map (@rev node) pushed).
Proof.
  revert pushed. induction calls as [|c calls IH]; intros pushed H.
  - by inversion H.
  - cbn [map collect] in H. cbn [map].
    destruct (node_arguments c !! 0) as [x|]; [|done].
    cbn [defined mbind result_bind] in H.
    destruct (node_properties x) as [props|] eqn:Ex; [|done].
    cbn [defined mbind result_bind] in H.
    destruct (collect _) as [others|] eqn:E; [|done].
    inversion H; subst; clear H.
    cbn [map mbind option_bind]. rewrite Ex, (IH _ eq_refl).
    by rewrite rev_involutive.
Qed.

Section ChainMetadata.

Variables (title : string) (rest : list node) (links : list link).

Hypothesis last_is_add : is_story_add (chain (chain_root title rest) links) = true.
Hypothesis rest_quiet : quiet is_metadata_call rest.
Hypothesis links_quiet : Forall (fun l : link => quiet is_metadata_call l.2) links.

Lemma links_not_nil : links ≠ [].
Proof. intros E. revert last_is_add. by rewrite E. Qed.

Lemma last_calls_add m :
  m ≠ "add" → calls_method m (chain (chain_root title rest) links) = false.
Proof.
  intros Hm. pose proof links_not_nil as Hne. revert last_is_add.
  destruct links as [|l ls _] using rev_ind; [done|].
  rewrite chain_snoc. unfold is_story_add.
  rewrite !calls_method_call_method. intros [E _]%andb_true_iff.
  apply String.eqb_eq in E. rewrite E. by apply String.eqb_neq.
Qed.

Lemma find_method_calls m :
  m ≠ "add" →
  (∀ n, calls_method m n = true → is_metadata_call n = true) →
  find_calls (calls_method m) (chain (chain_root title rest) links)
  = rev (List.filter (calls_method m) (chain_calls (chain_root title rest) links)).
Proof.
  intros Hm Hmeta.
  rewrite (find_calls_chain_inner _ _ _ (calls_method_call m)).
  - rewrite filter_chain_root;
      [by rewrite app_nil_r|apply calls_method_call|by eapply quiet_weaken].
  - apply links_not_nil.
  - by apply last_calls_add.
  - eapply Forall_impl; [exact links_quiet|]. intros l. by apply quiet_weaken.
Qed.

Lemma find_chain_roots :
  find_calls is_chain_root (chain (chain_root title rest) links)
  = [chain_root title rest].
Proof.
  assert (∀ n, is_chain_root n = true → is_metadata_call n = true) as Hmeta.
  { intros n Hn. unfold is_metadata_call. by rewrite Hn. }
  rewrite (find_calls_chain_inner _ _ _ is_chain_root_call).
  - rewrite chain_calls_no_root. simpl rev. cbn [app].
    rewrite filter_chain_root;
      [done|apply is_chain_root_call|by eapply quiet_weaken].
  - apply links_not_nil.
  - pose proof links_not_nil. destruct links as [|l ls _] using rev_ind; [done|].
    by rewrite chain_snoc.
  - eapply Forall_impl; [exact links_quiet|]. intros l. by apply quiet_weaken.
Qed.

End ChainMetadata.


(** What [decorators_export] and [parameters_export] make of the calls
    [find] reports: the first arguments, the last reported call first. *)
Lemma decorators_export_elements path ds :
  decorators_export path = Ok ds →
  ∃ elements,
    ds = decorators_property elements ∧
    map Some elements
    = map (fun add => node_arguments add !! 0)
          (rev (find_calls (calls_method "addDecorator") path)).
Proof.
  unfold decorators_export.
  rewrite (map_rev (fun add => node_arguments add !! 0)).
  set (decorators := map _ (find_calls _ path)). intros H.
  destruct (Nat.eqb (length decorators) 0) eqn:Elen.
  - inversion H; subst. exists []. apply Nat.eqb_eq in Elen.
    by destruct decorators.
  - inv_bind H. inversion H; subst; clear H. rename a into elements.
    apply collect_defined_Some in E. exists elements. split; [|done].
    unfold decorators_property.
    replace (length elements) with (length decorators); [by rewrite Elen|].
    by rewrite <- (length_rev decorators), E, length_map.
Qed.

Lemma parameters_export_fields path ps :
  parameters_export path = Ok ps →
  ∃ fields,
    ps = parameters_property (concat fields) ∧
    map Some fields
    = map (fun add => node_arguments add !! 0 ≫= node_properties)
          (rev (find_calls (calls_method "addParameters") path)).
Proof.
  unfold parameters_export. intros H. inv_bind H. rename a into pushed.
  apply collect_properties in E.
  exists (rev (map (@rev node) pushed)). split.
  - rewrite <- rev_concat_rev. unfold parameters_property. rewrite length_rev.
    by destruct (Nat.eqb (length (concat pushed)) 0); inversion H.
  - rewrite !map_rev. by rewrite E.
Qed.

(** The sites of the links of one method are met in the order of the
    links, whatever else is reported in between. *)
Lemma link_sites_sublist {A} (site : link → option A) (g : node → option A) m
    receiver (links : list link) (xs : list A) :
  (∀ l, site l = if String.eqb l.1 m then l.2 !! 0 ≫= g else None) →
  m ≠ "add" → is_story_add (chain receiver links) = true →
  map Some xs
  = map (fun add => node_arguments add !! 0 ≫= g)
        (rev (find_calls (calls_method m) (chain receiver links))) →
  sublist (omap site links) xs.
Proof.
  intros Hsite Hm Hlast Hxs.
  destruct links as [|l links _] using rev_ind; [apply sublist_nil_l|].
  assert (String.eqb l.1 m = false) as Hl.
  { revert Hlast. rewrite chain_snoc. unfold is_story_add.
    rewrite calls_method_call_method. intros [E _]%andb_true_iff.
    apply String.eqb_eq in E. rewrite E. apply String.eqb_neq. congruence. }
  rewrite omap_app. cbn [omap list_omap]. rewrite (Hsite l), Hl, app_nil_r.
  rewrite <- (omap_first_arguments site g m links Hsite).
  rewrite <- (omap_id_Some xs), Hxs. apply sublist_omap.
  transitivity
    (map (fun add => node_arguments add !! 0 ≫= g)
         (List.filter (calls_method m) (chain_calls receiver links))).
  - rewrite <- (map_map (fun l : link => l.2 !! 0) (fun o => o ≫= g)).
    rewrite <- (chain_calls_first_arguments m links receiver).
    by rewrite map_map.
  - apply fmap_sublist, (find_calls_chain_sublist _ (calls_method_call m)).
Qed.

Lemma decorator_site_eq (l : link) :
  decorator_site l
  = if String.eqb l.1 "addDecorator" then l.2 !! 0 ≫= Some else None.
Proof. unfold decorator_site. destruct (String.eqb _ _), (l.2 !! 0); done. Qed.

Section ModuleMetadata.

Variable sanitizeName : string -> string.

(** C4.  In a module whose single chain statement is a fluent chain, every
    default export lists after [title] the collected decorators, then the
    collected parameters; the arguments of the [.addDecorator] links come in
    the order of the links, and so do the fields of the [.addParameters]
    links, link after link and left to right within each.  On a chain on
    [storiesOf('title', ...)] with no further metadata call hidden in the
    arguments there is one default export, and these are all it collects. *)
Theorem C4_metadata_order (f : file) pre s post receiver links ws r :
  source f = pre ++ s :: post →
  List.filter is_ExportDefaultDeclaration (source f) = [] →
  Forall (fun s => top_level_adds s = []) pre →
  Forall (fun s => top_level_adds s = []) post →
  in_body s = true →
  top_level_adds s = [chain receiver links] →
  storiesofTransformer sanitizeName f = Ok (ws, r) →
  ∃ titles decorators parameters excludeStories stories,
    tree r
    = prune_imports pre
      ++ (map (fun title =>
                 default_export title
                   (decorators_property decorators
                    ++ parameters_property parameters ++ excludeStories))
              titles
          ++ flat_map story_statements stories)
      ++ prune_imports post ∧
    sublist (omap decorator_site links) decorators ∧
    sublist (concat (omap parameters_site links)) parameters ∧
    (∀ title rest,
       receiver = chain_root title rest →
       quiet is_metadata_call rest →
       Forall (fun l : link => quiet is_metadata_call l.2) links →
       titles = [title] ∧
       decorators = omap decorator_site links ∧
       parameters = concat (omap parameters_site links)).
Proof.
  intros Hsrc Hdefault Hpre Hpost Hbody Hadd H.
  destruct (single_chain _ _ _ _ _ _ _ _ Hsrc Hdefault Hpre Hpost Hbody Hadd H)
    as (originalExports & stmts & _ & Hconv & ->).
  assert (is_story_add (chain receiver links) = true) as Hlast.
  { apply (top_level_adds_story s). rewrite Hadd. by left. }
  unfold convertToModuleExports in Hconv.
  destruct (decorators_export _) as [ds|] eqn:Eds; [|done].
  destruct (parameters_export _) as [ps|] eqn:Eps; [|done].
  cbn [mbind result_bind] in Hconv.
  destruct (excludeStories_export _) as [es|]; [|done].
  cbn [mbind result_bind] in Hconv.
  destruct (collect _) as [titles|] eqn:Etitles; [|done].
  cbn [mbind result_bind] in Hconv.
  destruct (read_stories _ _ _) as [stories|]; [|done].
  cbn [mbind result_bind] in Hconv. inversion Hconv; subst; clear Hconv.
  destruct (decorators_export_elements _ _ Eds) as (elements & -> & Helements).
  destruct (parameters_export_fields _ _ Eps) as (fields & -> & Hfields).
  assert (map Some elements
          = map (fun add => node_arguments add !! 0 ≫= Some)
                (rev (find_calls (calls_method "addDecorator")
                                 (chain receiver links)))) as Helements'.
  { rewrite Helements. apply map_ext. intros c. by destruct (_ !! 0). }
  exists titles, elements, (concat fields), es, stories. split_and!; [done|..].
  - by apply (link_sites_sublist decorator_site Some "addDecorator" receiver);
      [apply decorator_site_eq|..].
  - apply sublist_concat.
    by apply (link_sites_sublist parameters_site node_properties "addParameters"
                receiver).
  - intros title rest -> Hrest Hlinks.
    rewrite (find_chain_roots _ _ _ Hlast Hrest Hlinks) in Etitles.
    rewrite (find_method_calls _ _ _ Hlast Hrest Hlinks) in Helements', Hfields;
      [|done|by (intros n Hn; unfold is_metadata_call; rewrite Hn, orb_true_r)
       |done|by (intros n Hn; unfold is_metadata_call; rewrite Hn, orb_true_r)].
    rewrite rev_involutive in Helements', Hfields.
    split_and!.
    + cbn in Etitles. by inversion Etitles.
    + symmetry.
      apply (first_arguments_sites decorator_site Some "addDecorator");
        [apply decorator_site_eq|].
      rewrite Helements'.
      rewrite <- (map_map (fun l : link => l.2 !! 0) (fun o => o ≫= Some)).
      rewrite <- (chain_calls_first_arguments "addDecorator" links
                    (chain_root title rest)).
      by rewrite map_map.
    + f_equal. symmetry.
      apply (first_arguments_sites parameters_site node_properties "addParameters");
        [done|].
      rewrite Hfields.
      rewrite <- (map_map (fun l : link => l.2 !! 0) (fun o => o ≫= node_properties)).
      rewrite <- (chain_calls_first_arguments "addParameters" links
                    (chain_root title rest)).
      by rewrite map_map.
Qed.

End ModuleMetadata.


Lemma C4_metadata_order_witness :
  ∃ excludeStories stories,
    button_rewritten
    = [ ImportDeclaration
          [ImportSpecifier (Identifier "Button") (Identifier "Button")] "./Button" ]
      ++ (map (fun title =>
                 default_export title
                   (decorators_property [Identifier "d1"; Identifier "d2"]
                    ++ parameters_property
                         [ Property (Identifier "a") (Identifier "one");
                           Property (Identifier "b") (Identifier "two");
                           Property (Identifier "c") (Identifier "three") ]
                    ++ excludeStories))
              ["Button"]
          ++ flat_map story_statements stories)
      ++ [ ExportNamedDeclaration
             (Some (VariableDeclaration "const"
                      [VariableDeclarator (Identifier "helper")
                         (Some (Identifier "Button"))]))
             [] ].
Proof.
  destruct (C4_metadata_order keep_name button_stories
              [ storybook_import;
                ImportDeclaration
                  [ImportSpecifier (Identifier "Button") (Identifier "Button")]
                  "./Button" ]
              (ExpressionStatement (chain (storiesOf_call "Button") button_links))
              [ ExportNamedDeclaration
                  (Some (VariableDeclaration "const"
                           [VariableDeclarator (Identifier "helper")
                              (Some (Identifier "Button"))]))
                  [] ]
              (storiesOf_call "Button") button_links [] (Cleaned button_rewritten))
    as (titles & decorators & parameters & excludeStories & stories
        & Htree & _ & _ & Hexact).
  - reflexivity.
  - reflexivity.
  - repeat constructor.
  - repeat constructor.
  - reflexivity.
  - reflexivity.
  - by vm_compute.
  - destruct (Hexact "Button" [Identifier "module"]) as (-> & -> & ->);
      [reflexivity|reflexivity|repeat constructor|].
    exists excludeStories, stories. exact Htree.
Defined.

(** ** A second run *)

Section SecondRun.

Variable sanitizeName : string -> string.

Lemma rewritten_default originalExports todo pieces s add :
  Forall2 (rewritten_to sanitizeName originalExports) todo pieces →
  In s todo → top_level_adds s = [add] →
  find_calls is_chain_root add ≠ [] →
  List.filter is_ExportDefaultDeclaration (concat pieces) ≠ [].
Proof.
  intros HF Hin Hadd Hroot.
  induction HF as [|s' piece todo pieces Hs _ IH]; [done|].
  cbn [concat]. rewrite List.filter_app.
  destruct Hin as [->|Hin].
  - destruct Hs as [[Hs _]|(add' & root & Hadd' & _ & Hc)]; [congruence|].
    assert (add' = add) as -> by congruence.
    destruct (convertToModuleExports_stories _ _ _ _ _ Hc)
      as (defaults & stories & -> & Hdef & Hlen & _).
    destruct defaults as [|d defaults].
    { destruct (find_calls is_chain_root add); done. }
    inversion Hdef as [|?? Hd _]; subst. simpl. by rewrite Hd.
  - intros E. apply app_eq_nil in E as [_ E]. by apply IH.
Qed.

End SecondRun.

Section SecondRunText.

Variable sanitizeName : string -> string.
Variable parse : text -> result Program.
Variable toSource : option print_options -> Program -> text.
Variable prettify : text -> text.

(** C9, as the code has it.  Take a rewrite of a module that holds a chain
    statement with a chain root ([storiesOf] with a literal title) in it,
    and the text [t] it returns.  The tree of the first run has no story
    chain statement left in its body and has a default export.  When the
    parser reads a default export back from [t], and the printer prints the
    tree read from [t] as [t] again while nothing was changed in it, the
    second run returns [t]: it stops at its guard for an existing default
    export. *)
Theorem C9_second_run_same_text (f : file) s add ws root' root1 :
  In s (source f) → top_level_adds s = [add] →
  find_calls is_chain_root add ≠ [] →
  storiesofTransformer sanitizeName f = Ok (ws, Cleaned root') →
  parse (render toSource prettify (Cleaned root')) = Ok root1 →
  (List.filter is_ExportDefaultDeclaration root' ≠ [] →
   List.filter is_ExportDefaultDeclaration root1 ≠ []) →
  toSource None root1 = render toSource prettify (Cleaned root') →
  Forall no_chain_left root' ∧
  List.filter is_ExportDefaultDeclaration root' ≠ [] ∧
  storiesofTransformer_text sanitizeName parse toSource prettify (path f)
    (render toSource prettify (Cleaned root'))
  = Ok (if Nat.ltb 0 (length (find_calls_in is_storiesOf root1))
        then [Skipping (length (find_calls_in is_storiesOf root1)) (path f)]
        else [],
        render toSource prettify (Cleaned root')).
Proof.
  intros Hin Hadd Hroot H Hparse Hback Hprint. unfold storiesofTransformer in H.
  destruct (Nat.ltb 0 (length (List.filter _ (source f)))); [done|].
  inv_bind H.
  destruct (rewrite_chains_pieces _ _ _ _ _ E0) as (pieces & -> & HF).
  assert (root' = prune_imports (concat pieces)) as ->.
  { destruct (Nat.ltb 1 _); by inversion H. }
  pose proof (rewritten_default _ _ _ _ _ _ HF Hin Hadd Hroot) as Hdef.
  rewrite <- prune_imports_default in Hdef.
  split_and!; [|done|].
  - apply prune_imports_no_chain_left. by eapply rewritten_no_chain_left.
  - unfold storiesofTransformer_text. rewrite Hparse. cbn [mbind result_bind].
    unfold storiesofTransformer. cbn [source path].
    specialize (Hback Hdef).
    destruct (List.filter is_ExportDefaultDeclaration root1); [done|].
    cbn [length Nat.ltb Nat.leb mbind result_bind fst snd render].
    by rewrite Hprint.
Qed.

End SecondRunText.

(** C9 fails as stated.  The first run rewrites [note_module], whose
    [storiesOf] call is bound to [stories]: no default export is emitted,
    and the text returned is [note_output], the print without its first
    line.  The second run reads [note_output], changes nothing in the tree,
    prints it as it read it, and the clean-up cuts the text of the string
    literal: the text returned differs. *)
Lemma C9_counterexample :
  storiesofTransformer keep_name note_module = Ok ([], Cleaned note_rewritten) ∧
  render (print_as note_printed) (fun t => t) (Cleaned note_rewritten)
  = of_string note_output ∧
  storiesofTransformer_text keep_name (parse_as note_output note_reparsed)
    (print_as note_output) (fun t => t) "note.stories.js" (of_string note_output)
  = Ok ([], of_string note_twice) ∧
  of_string note_twice ≠ of_string note_output.
Proof. split_and!; by vm_compute. Qed.

Lemma C9_second_run_same_text_witness :
  storiesofTransformer_text keep_name (parse_as button_output button_rewritten)
    (print_as button_output) (fun t => t) "button.stories.js"
    (of_string button_output)
  = Ok ([], of_string button_output).
Proof.
  refine (proj2 (proj2
    (C9_second_run_same_text keep_name (parse_as button_output button_rewritten)
       (print_as button_output) (fun t => t) button_stories
       (ExpressionStatement (chain (storiesOf_call "Button") button_links))
       (chain (storiesOf_call "Button") button_links) []
       button_rewritten button_rewritten _ _ _ _ _ _ _))).
  - right. right. left. reflexivity.
  - reflexivity.
  - vm_compute. discriminate.
  - by vm_compute.
  - by vm_compute.
  - intros _. vm_compute. discriminate.
  - by vm_compute.
Defined.

(** * Further properties of the transform *)

(** ** Statements the transform leaves alone *)

Section Frame.

Variable sanitizeName : string -> string.

Lemma left_alone_kept (s : statement) :
  left_alone s = true →
  top_level_adds s = [] ∧ prune_imports [s] = [s].
Proof.
  unfold left_alone. intros H.
  apply andb_prop in H as [H Himport]. apply andb_prop in H as [_ Hadds].
  split.
  - destruct (top_level_adds s); [done|discriminate].
  - by destruct s.
Qed.

Lemma prune_imports_concat (pieces : list Program) :
  prune_imports (concat pieces) = concat (map prune_imports pieces).
Proof.
  induction pieces as [|piece pieces IH]; [done|].
  cbn [concat map]. by rewrite prune_imports_app, IH.
Qed.

(** The tree the transform returns is the module with every top-level
    statement replaced, at its place, by a list of statements, and a plain
    statement that holds no top-level story-shaped [.add] call and is no
    import is replaced by itself: it is found again unchanged, between what
    its neighbours became.  A call that misses the shape of a story is not
    touched. *)
Theorem other_statements_kept (f : file) ws r :
  storiesofTransformer sanitizeName f = Ok (ws, r) →
  ∃ pieces,
    tree r = concat pieces ∧
    Forall2 (fun s piece => left_alone s = true → piece = [s]) (source f) pieces.
Proof.
  intros H. unfold storiesofTransformer in H.
  destruct (Nat.ltb 0 (length (List.filter _ (source f)))) eqn:Hdefault.
  - inversion H; subst; clear H. exists (map (fun s => [s]) (source f)).
    cbn [tree]. split.
    + generalize (source f). intros l.
      induction l as [|s l IH]; [done|]. simpl. by f_equal.
    + generalize (source f). intros l.
      induction l as [|s l IH]; constructor; done.
  - inv_bind H.
    destruct (rewrite_chains_pieces _ _ _ _ _ E0) as (pieces & -> & HF).
    assert (tree r = prune_imports (concat pieces)) as ->.
    { destruct (Nat.ltb 1 _); by inversion H. }
    exists (map prune_imports pieces). split; [apply prune_imports_concat|].
    clear -HF. induction HF as [|s piece todo pieces Hs _ IH]; [constructor|].
    cbn [map]. constructor; [|done].
    intros Hleft. apply left_alone_kept in Hleft as [Hadds Hprune].
    destruct Hs as [[_ ->]|(add & root & Hadd & _)]; [done|congruence].
Qed.

(** On a module of plain statements without default export and without
    top-level story-shaped [.add] call, whose export names can be read, the
    tree part of the transform does not throw and prunes the ["@storybook/"]
    imports of [storiesOf], nothing else.  What is returned is the print of
    that tree: as it is, after the warning, when more than one [storiesOf]
    call was counted; otherwise after the clean-up and [prettify]. *)
Theorem no_chain_only_imports_pruned (f : file) originalExports :
  List.filter is_ExportDefaultDeclaration (source f) = [] →
  Forall (fun s => plain_statement s = true) (source f) →
  Forall (fun s => top_level_adds s = []) (source f) →
  original_exports (source f) = Ok originalExports →
  let count := length (find_calls_in is_storiesOf (source f)) in
  ∃ r,
    storiesofTransformer sanitizeName f
    = Ok (if Nat.ltb 1 count then [FixByHand count (path f)] else [], r) ∧
    tree r = prune_imports (source f) ∧
    ∀ toSource prettify,
      render toSource prettify r
      = let printed :=
          toSource
            (Some {| trailingComma := true; quote := "single"; tabWidth := 2 |})
            (prune_imports (source f)) in
        if Nat.ltb 1 count then printed
        else prettify (replace_stories printed).
Proof.
  intros Hdefault _ Hnone Hexports count. unfold storiesofTransformer.
  rewrite Hdefault, Hexports. simpl.
  rewrite rewrite_chains_none by done. simpl. fold count.
  destruct (Nat.ltb 1 count); eexists; split_and!; reflexivity.
Qed.

End Frame.

Lemma other_statements_kept_witness :
  ∃ pieces,
    button_rewritten = concat pieces ∧
    Forall2 (fun s piece => left_alone s = true → piece = [s])
            (source button_stories) pieces.
Proof.
  apply (other_statements_kept keep_name button_stories []
           (Cleaned button_rewritten)).
  by vm_compute.
Defined.

Lemma no_chain_only_imports_pruned_witness :
  ∃ r,
    storiesofTransformer keep_name no_story_module = Ok ([], r) ∧
    tree r
    = [ Declaration
          (VariableDeclaration "const"
             [VariableDeclarator (Identifier "title") (Some (StringLiteral "A"))]);
        ExpressionStatement
          (chain (Identifier "registry")
                 [("add", [Identifier "title"; Identifier "f"])]);
        ExportNamedDeclaration
          (Some (VariableDeclaration "const"
                   [VariableDeclarator (Identifier "helper") (Some (Identifier "f"))]))
          [] ] ∧
    ∀ toSource prettify,
      render toSource prettify r
      = prettify
          (replace_stories
             (toSource
                (Some {| trailingComma := true; quote := "single"; tabWidth := 2 |})
                (prune_imports (source no_story_module)))).
Proof.
  apply (no_chain_only_imports_pruned keep_name no_story_module [Some "helper"]).
  - reflexivity.
  - repeat constructor.
  - repeat constructor.
  - reflexivity.
Defined.

(** ** The default exports of a conversion *)

Section Defaults.

Variable sanitizeName : string -> string.

Lemma excludeStories_export_names originalExports es :
  excludeStories_export originalExports = Ok es →
  ∃ names, originalExports = map Some names ∧ es = excludeStories_property names.
Proof.
  unfold excludeStories_export, excludeStories_property. intros H.
  destruct (Nat.eqb (length originalExports) 0) eqn:Elen.
  - inversion H; subst. exists []. apply Nat.eqb_eq in Elen.
    by destruct originalExports.
  - inv_bind H. inversion H; subst; clear H. rename a into names.
    apply collect_defined_Some in E. exists names. split; [done|].
    rewrite E, length_map in Elen. by rewrite Elen.
Qed.

(** A conversion emits one default export for each [storiesOf] call with a
    literal title that [find] meets below the last [.add] of the chain, and
    none when there is no such call (a title that is no string literal is
    lost). *)
Theorem default_export_per_chain_root root add originalExports stmts :
  convertToModuleExports sanitizeName root add originalExports = Ok stmts →
  length (List.filter is_ExportDefaultDeclaration stmts)
  = length (find_calls is_chain_root add).
Proof.
  intros H.
  destruct (convertToModuleExports_stories _ _ _ _ _ H)
    as (defaults & stories & -> & Hdef & Hlen & _).
  rewrite List.filter_app, length_app, <- Hlen.
  replace (List.filter is_ExportDefaultDeclaration (flat_map story_statements stories))
    with (@nil statement).
  - rewrite Nat.add_0_r. f_equal. clear -Hdef.
    induction Hdef as [|s l Hs _ IH]; [done|]. simpl. by rewrite Hs, IH.
  - clear. induction stories as [|s stories IH]; [done|].
    cbn [flat_map]. rewrite List.filter_app, <- IH. unfold story_statements.
    by destruct (Nat.eqb _ 0).
Qed.

(** In a module with a single chain statement, every default export ends
    with an [excludeStories] array that lists the names of the original
    named exports of the module, in the order they were read; the field is
    left out when the module has no named export. *)
Theorem excludeStories_lists_original_exports (f : file) pre s post add ws r :
  source f = pre ++ s :: post →
  List.filter is_ExportDefaultDeclaration (source f) = [] →
  Forall (fun s => top_level_adds s = []) pre →
  Forall (fun s => top_level_adds s = []) post →
  in_body s = true → top_level_adds s = [add] →
  storiesofTransformer sanitizeName f = Ok (ws, r) →
  ∃ names titles extraExports stories,
    original_exports (source f) = Ok (map Some names) ∧
    tree r
    = prune_imports pre
      ++ (map (fun title =>
                 default_export title (extraExports ++ excludeStories_property names))
              titles
          ++ flat_map story_statements stories)
      ++ prune_imports post.
Proof.
  intros Hsrc Hdefault Hpre Hpost Hbody Hadd H.
  destruct (single_chain _ _ _ _ _ _ _ _ Hsrc Hdefault Hpre Hpost Hbody Hadd H)
    as (originalExports & stmts & Hexports & Hconv & ->).
  unfold convertToModuleExports in Hconv.
  destruct (decorators_export _) as [ds|]; [|done].
  destruct (parameters_export _) as [ps|]; [|done].
  cbn [mbind result_bind] in Hconv.
  destruct (excludeStories_export _) as [es|] eqn:Ees; [|done].
  cbn [mbind result_bind] in Hconv.
  destruct (collect _) as [titles|]; [|done].
  cbn [mbind result_bind] in Hconv.
  destruct (read_stories _ _ _) as [stories|]; [|done].
  cbn [mbind result_bind] in Hconv. inversion Hconv; subst; clear Hconv.
  destruct (excludeStories_export_names _ _ Ees) as (names & -> & ->).
  exists names, titles, (ds ++ ps), stories. split; [done|].
  f_equal. f_equal. f_equal. apply map_ext. intros title.
  by rewrite <- app_assoc.
Qed.

End Defaults.

Lemma default_export_per_chain_root_witness :
  ∃ stmts,
    convertToModuleExports keep_name [ExpressionStatement untitled_chain]
      untitled_chain [] = Ok stmts ∧
    stmts = [export_const "First" (Identifier "f")] ∧
    length (List.filter is_ExportDefaultDeclaration stmts) = 0.
Proof.
  eexists. split; [by vm_compute|]. split; [reflexivity|].
  exact (default_export_per_chain_root keep_name
           [ExpressionStatement untitled_chain] untitled_chain [] _ eq_refl).
Defined.

Lemma excludeStories_lists_original_exports_witness :
  ∃ names titles extraExports stories,
    original_exports (source button_stories) = Ok (map Some names) ∧
    names = ["helper"] ∧
    button_rewritten
    = [ ImportDeclaration
          [ImportSpecifier (Identifier "Button") (Identifier "Button")] "./Button" ]
      ++ (map (fun title =>
                 default_export title (extraExports ++ excludeStories_property names))
              titles
          ++ flat_map story_statements stories)
      ++ [ ExportNamedDeclaration
             (Some (VariableDeclaration "const"
                      [VariableDeclarator (Identifier "helper")
                         (Some (Identifier "Button"))]))
             [] ].
Proof.
  destruct (excludeStories_lists_original_exports keep_name button_stories
              [ storybook_import;
                ImportDeclaration
                  [ImportSpecifier (Identifier "Button") (Identifier "Button")]
                  "./Button" ]
              (ExpressionStatement (chain (storiesOf_call "Button") button_links))
              [ ExportNamedDeclaration
                  (Some (VariableDeclaration "const"
                           [VariableDeclarator (Identifier "helper")
                              (Some (Identifier "Button"))]))
                  [] ]
              (chain (storiesOf_call "Button") button_links)
              [] (Cleaned button_rewritten))
    as (names & titles & extraExports & stories & Hnames & Htree).
  - reflexivity.
  - reflexivity.
  - repeat constructor.
  - repeat constructor.
  - reflexivity.
  - reflexivity.
  - by vm_compute.
  - exists names, titles, extraExports, stories. split_and!; [exact Hnames| |exact Htree].
    vm_compute in Hnames. inversion Hnames as [Heq].
    destruct names as [|n [|??]]; try discriminate. by inversion Heq.
Defined.

(** ** Per-story parameters: the other cases of [extractDecorators] *)

Lemma filter_not_keyed_throws lit properties :
  Exists (fun p => node_key p = None) properties →
  filter_not_keyed lit properties = Throw.
Proof.
  induction 1 as [p ps Hp|p ps _ IH]; simpl.
  - unfold keyed. by rewrite Hp.
  - rewrite IH. by destruct (keyed lit p).
Qed.

Lemma find_keyed_not_None lit properties :
  Exists (fun p => node_key p = None) properties →
  find_keyed lit properties ≠ Ok None.
Proof.
  induction 1 as [p ps Hp|p ps _ IH]; simpl.
  - unfold keyed. by rewrite Hp.
  - destruct (keyed lit p) as [[]|]; done.
Qed.

Lemma extractDecorators_throws parameters properties :
  node_properties parameters = Some properties →
  Exists (fun p => node_key p = None) properties →
  extractDecorators (Some parameters) = Throw.
Proof.
  intros Hprops Hex. unfold extractDecorators. rewrite Hprops.
  pose proof (find_keyed_not_None "decorators" _ Hex) as Hfind.
  destruct (find_keyed "decorators" properties) as [[p|]|]; [|done|done].
  simpl. by rewrite filter_not_keyed_throws.
Qed.

Section StoryParameters.

Variable sanitizeName : string -> string.

Lemma read_story_throws identifiers add parameters properties :
  node_arguments add !! 2 = Some parameters →
  node_properties parameters = Some properties →
  Exists (fun p => node_key p = None) properties →
  read_story sanitizeName identifiers add = Throw.
Proof.
  intros Harg Hprops Hex. unfold read_story.
  destruct (defined (node_arguments add !! 0 ≫= string_value)); [|done]. simpl.
  destruct (defined (unique_key _ _)); [|done]. simpl.
  destruct (defined (node_arguments add !! 1)) as [val|]; [|done]. simpl.
  destruct (check (is_Expression val)); [|done]. simpl.
  assert (Nat.ltb 2 (length (node_arguments add)) = true) as ->.
  { apply Nat.ltb_lt. by eapply lookup_lt_Some. }
  rewrite Harg. by rewrite (extractDecorators_throws _ _ Hprops Hex).
Qed.

Lemma read_stories_throws adds add : ∀ identifiers,
  (∀ ids, read_story sanitizeName ids add = Throw) →
  read_stories sanitizeName identifiers (adds ++ [add]) = Throw.
Proof.
  intros identifiers Hadd. revert identifiers.
  induction adds as [|a adds IH]; intros identifiers; simpl.
  - by rewrite Hadd.
  - destruct (read_story _ _ a); [|done]. simpl. by rewrite IH.
Qed.

Lemma rewrite_chains_throws originalExports todo s add more : ∀ passed,
  In s todo → top_level_adds s = add :: more →
  (∀ root, convertToModuleExports sanitizeName root add originalExports = Throw) →
  rewrite_chains sanitizeName originalExports passed todo = Throw.
Proof.
  induction todo as [|s' rest IH]; intros passed Hin Hadds Hthrow; [done|].
  simpl. destruct Hin as [->|Hin].
  - by rewrite Hadds, Hthrow.
  - destruct (top_level_adds s') as [|add' more']; [by apply IH|].
    destruct (convertToModuleExports _ _ _ _); [|done]. simpl.
    destruct (in_body s' && _); [by apply IH|done].
Qed.

(** A spread element (any member without a key) in the object literal that
    an [.add] at the top of a chain statement passes as its third argument
    makes the whole transform throw: [p.key.name] is read on every member. *)
Theorem keyless_parameter_throws (f : file) s add more parameters properties :
  List.filter is_ExportDefaultDeclaration (source f) = [] →
  In s (source f) → top_level_adds s = add :: more →
  node_arguments add !! 2 = Some parameters →
  node_properties parameters = Some properties →
  Exists (fun p => node_key p = None) properties →
  storiesofTransformer sanitizeName f = Throw.
Proof.
  intros Hdefault Hin Hadds Harg Hprops Hex. unfold storiesofTransformer.
  rewrite Hdefault. simpl.
  destruct (original_exports (source f)) as [originalExports|]; [|done]. simpl.
  rewrite (rewrite_chains_throws originalExports _ s add more); [done..|].
  intros root. unfold convertToModuleExports.
  destruct (decorators_export add); [|done]. simpl.
  destruct (parameters_export add); [|done]. simpl.
  destruct (excludeStories_export originalExports); [|done]. simpl.
  destruct (collect _); [|done]. simpl.
  rewrite read_stories_throws; [done|].
  intros ids. by eapply read_story_throws.
Qed.

(** A third argument that the property builder accepts as a value and that
    is no object literal, or an object literal of key-value properties none
    of which is named [decorators] (the empty literal included), is
    attached as it stands as the [parameters] of the story: the export of
    the story is followed by the assignment of an object with that one
    field to its [story] property. *)
Theorem plain_parameters_attached identifiers callee name val parameters extra :
  is_Expression val = true →
  is_value parameters = true →
  (node_properties parameters = None ∨
   ∃ properties, node_properties parameters = Some properties ∧
                 Forall (fun p => is_Property p = true) properties ∧
                 List.find (has_key "decorators") properties = None) →
  ∃ key,
    unique_key identifiers (sanitizeName name) = Some key ∧
    read_story sanitizeName identifiers
      (CallExpression callee (StringLiteral name :: val :: parameters :: extra))
    ≫= (fun s => Ok (story_statements s))
    = Ok [ ExportDeclaration false
             (VariableDeclaration "const"
                [VariableDeclarator (Identifier key) (Some val)]);
           ExpressionStatement
             (AssignmentExpression "="
                (MemberExpression (Identifier key) (Identifier "story"))
                (ObjectExpression
                   [Property (Identifier "parameters") parameters])) ].
Proof.
  intros Hval Hparameters Hcase.
  destruct (unique_key_total identifiers (sanitizeName name)) as [key Hkey].
  assert (extractDecorators (Some parameters)
          = Ok {| storyParams := Some parameters; storyDecorators := None |}) as Hex.
  { unfold extractDecorators.
    destruct Hcase as [->|(properties & -> & Hprops & Hfind)]; [done|].
    by rewrite find_keyed_properties, Hfind. }
  exists key. split; [done|].
  unfold read_story. cbn [node_arguments lookup list_lookup mbind option_bind
                          string_value defined result_bind].
  rewrite Hkey, Hval. cbn [defined check result_bind mbind length Nat.ltb Nat.leb].
  rewrite Hex.
  cbn [result_bind mbind storyParams storyDecorators from_option check].
  rewrite Hparameters. reflexivity.
Qed.

End StoryParameters.

Lemma keyless_parameter_throws_witness :
  storiesofTransformer keep_name spread_parameters = Throw.
Proof.
  apply (keyless_parameter_throws keep_name spread_parameters
           (ExpressionStatement
              (chain (storiesOf_call "A")
                     [("add", [ StringLiteral "First"; Identifier "f";
                                ObjectExpression
                                  [ SpreadElement (Identifier "common");
                                    Property (Identifier "notes") (Identifier "n") ] ])]))
           (chain (storiesOf_call "A")
                  [("add", [ StringLiteral "First"; Identifier "f";
                             ObjectExpression
                               [ SpreadElement (Identifier "common");
                                 Property (Identifier "notes") (Identifier "n") ] ])])
           []
           (ObjectExpression
              [ SpreadElement (Identifier "common");
                Property (Identifier "notes") (Identifier "n") ])
           [ SpreadElement (Identifier "common");
             Property (Identifier "notes") (Identifier "n") ]).
  - reflexivity.
  - left. reflexivity.
  - reflexivity.
  - reflexivity.
  - reflexivity.
  - left. reflexivity.
Defined.

Lemma plain_parameters_attached_witness :
  read_story keep_name ∅
    (CallExpression (MemberExpression (storiesOf_call "A") (Identifier "add"))
       [ StringLiteral "First"; Identifier "f";
         ObjectExpression [Property (Identifier "notes") (Identifier "n")] ])
  ≫= (fun s => Ok (story_statements s))
  = Ok [ ExportDeclaration false
           (VariableDeclaration "const"
              [VariableDeclarator (Identifier "First") (Some (Identifier "f"))]);
         ExpressionStatement
           (AssignmentExpression "="
              (MemberExpression (Identifier "First") (Identifier "story"))
              (ObjectExpression
                 [ Property (Identifier "parameters")
                     (ObjectExpression
                        [Property (Identifier "notes") (Identifier "n")]) ])) ].
Proof.
  destruct (plain_parameters_attached keep_name ∅
              (MemberExpression (storiesOf_call "A") (Identifier "add"))
              "First" (Identifier "f")
              (ObjectExpression [Property (Identifier "notes") (Identifier "n")]) [])
    as (key & Hkey & Hs).
  - reflexivity.
  - reflexivity.
  - right. exists [Property (Identifier "notes") (Identifier "n")].
    split_and!; [reflexivity|repeat constructor|reflexivity].
  - vm_compute in Hkey. inversion Hkey; subst. exact Hs.
Defined.

(** ** Export identifiers across the chains of a module *)

Lemma exported_key_identifier (root : Program) s k :
  In s root → exported_key s = Some k → k ∈ identifiers_of root.
Proof.
  intros Hin Hk. unfold identifiers_of. apply elem_of_list_to_set.
  apply list_elem_of_omap. exists (Identifier k). split; [|done].
  apply list_elem_of_In. unfold program_nodes. apply in_flat_map.
  exists s. split; [done|].
  destruct s as [| | | | |b [kind [|[i init] [|??]]|]|]; try done;
    destruct i; try done.
  inversion Hk; subst. simpl. by left.
Qed.

Lemma exported_key_prune_imports (root : Program) :
  omap exported_key (prune_imports root) = omap exported_key root.
Proof.
  induction root as [|s root IH]; [done|].
  change (prune_imports (s :: root)) with (prune_import s ++ prune_imports root).
  change (s :: root) with ([s] ++ root).
  rewrite !omap_app, IH. f_equal.
  destruct s as [| |specifiers src| | | |]; try done.
  simpl. destruct (String.prefix _ _); [|done].
  by destruct (remove_specifiers _ _).
Qed.

Section AcrossChains.

Variable sanitizeName : string -> string.

Lemma converted_keys root add originalExports stmts :
  convertToModuleExports sanitizeName root add originalExports = Ok stmts →
  NoDup (omap exported_key stmts) ∧
  ∀ k, k ∈ omap exported_key stmts → k ∉ identifiers_of root.
Proof.
  intros H.
  destruct (convertToModuleExports_stories _ _ _ _ _ H)
    as (defaults & stories & -> & Hdef & _ & Hread).
  destruct (read_stories_keys _ _ _ _ Hread) as (Hnd & Hfresh & _).
  rewrite omap_app, exported_key_story_statements.
  replace (omap exported_key defaults) with (@nil string); [done|].
  clear -Hdef. induction Hdef as [|s l Hs _ IH]; [done|].
  destruct s; try discriminate. by simpl.
Qed.

Lemma rewrite_chains_keys originalExports todo : ∀ passed out,
  rewrite_chains sanitizeName originalExports passed todo = Ok out →
  NoDup (omap exported_key (passed ++ todo)) →
  NoDup (omap exported_key out).
Proof.
  induction todo as [|s rest IH]; intros passed out H Hnd; simpl in H.
  - inversion H; subst. by rewrite app_nil_r in Hnd.
  - destruct (top_level_adds s) as [|add more] eqn:Eadds.
    + apply (IH _ _ H). by rewrite <- app_assoc.
    + inv_bind H. rename a into stmts.
      destruct (in_body s && _); [|done].
      apply (IH _ _ H). clear IH H.
      destruct (converted_keys _ _ _ _ E) as (Hkeys & Hfresh).
      rewrite !omap_app.
      change (s :: rest) with ([s] ++ rest) in Hnd.
      rewrite !omap_app in Hnd.
      apply NoDup_app in Hnd as (Hpassed & Hdisj & Hrest').
      apply NoDup_app in Hrest' as (_ & _ & Hrest).
      assert (∀ k, k ∈ omap exported_key passed → k ∈ identifiers_of (passed ++ s :: rest))
        as Hin_passed.
      { intros k Hk. apply list_elem_of_omap in Hk as (s' & Hs' & Hk).
        apply (exported_key_identifier _ s'); [|done].
        apply in_or_app. left. by apply list_elem_of_In. }
      assert (∀ k, k ∈ omap exported_key rest → k ∈ identifiers_of (passed ++ s :: rest))
        as Hin_rest.
      { intros k Hk. apply list_elem_of_omap in Hk as (s' & Hs' & Hk).
        apply (exported_key_identifier _ s'); [|done].
        apply in_or_app. right. right. by apply list_elem_of_In. }
      apply NoDup_app. split_and!; [| |done].
      * apply NoDup_app. split_and!; [done| |done].
        intros k Hk Hk'. apply (Hfresh k Hk'). by apply Hin_passed.
      * intros k Hk Hk'. apply elem_of_app in Hk as [Hk|Hk].
        -- apply (Hdisj k Hk). apply elem_of_app. by right.
        -- apply (Hfresh k Hk). by apply Hin_rest.
Qed.

(** Whatever the number of chains in the module, the identifiers under which
    the stories are exported are pairwise distinct in the tree the transform
    returns: each conversion reads the registry off the module as the
    earlier conversions left it.  (A module as parsed holds no statement
    built by [j.exportDeclaration], so the condition is met.) *)
Theorem export_identifiers_distinct (f : file) ws r :
  NoDup (omap exported_key (source f)) →
  storiesofTransformer sanitizeName f = Ok (ws, r) →
  NoDup (omap exported_key (tree r)).
Proof.
  intros Hnd H. unfold storiesofTransformer in H.
  destruct (Nat.ltb 0 (length (List.filter _ (source f)))).
  - by inversion H; subst.
  - inv_bind H.
    assert (tree r = prune_imports a0) as ->.
    { destruct (Nat.ltb 1 _); by inversion H. }
    rewrite exported_key_prune_imports.
    by apply (rewrite_chains_keys _ _ _ _ E0).
Qed.

End AcrossChains.

Lemma export_identifiers_distinct_witness :
  ∃ ws r,
    storiesofTransformer keep_name same_name_chains = Ok (ws, r) ∧
    omap exported_key (tree r) = ["Same"; "_Same"] ∧
    NoDup (omap exported_key (tree r)).
Proof.
  eexists _, _. split; [by vm_compute|]. split; [reflexivity|].
  apply (export_identifiers_distinct keep_name same_name_chains
           [FixByHand 2 "same.stories.js"]).
  - vm_compute. constructor.
  - by vm_compute.
Defined.

(** ** Pruning twice *)

Lemma remove_specifiers_pruned specifiers :
  remove_specifiers []
    (List.filter (fun sp => negb (imports_storiesOf sp)) specifiers)
  = Some (List.filter (fun sp => negb (imports_storiesOf sp)) specifiers).
Proof.
  rewrite remove_specifiers_spec.
  set (kept := List.filter _ specifiers).
  assert (List.filter (fun sp => negb (imports_storiesOf sp)) kept = kept) as ->.
  { unfold kept. induction specifiers as [|sp l IH]; [done|]. simpl.
    destruct (imports_storiesOf sp) eqn:E; simpl; [done|]. by rewrite E, IH. }
  assert (forallb imports_storiesOf kept && negb (Nat.eqb (length kept) 0) = false)
    as Hnone.
  { destruct kept as [|sp l] eqn:Ek; [done|].
    assert (In sp kept) as Hin by (rewrite Ek; by left).
    apply List.filter_In in Hin as [_ Hsp]. simpl.
    by destruct (imports_storiesOf sp). }
  simpl. rewrite andb_true_r. by rewrite Hnone.
Qed.

(** Pruning the imports a second time changes nothing: after one pass no
    import from a ["@storybook/"] module names [storiesOf] any more. *)
Theorem prune_imports_idempotent (root : Program) :
  prune_imports (prune_imports root) = prune_imports root.
Proof.
  induction root as [|s root IH]; [done|].
  change (prune_imports (s :: root)) with (prune_import s ++ prune_imports root).
  rewrite prune_imports_app, IH. f_equal.
  destruct s as [| |specifiers src| | | |]; try done.
  unfold prune_import.
  destruct (String.prefix "@storybook/" src) eqn:Eprefix.
  - rewrite remove_specifiers_spec. cbn [length Nat.eqb app]. rewrite andb_true_r.
    destruct (forallb imports_storiesOf specifiers
              && negb (Nat.eqb (length specifiers) 0)); [done|].
    unfold prune_imports. cbn [flat_map prune_import].
    by rewrite Eprefix, remove_specifiers_pruned.
  - unfold prune_imports. cbn [flat_map prune_import]. by rewrite Eprefix.
Qed.

(** ** The clean-up and the lines of the text *)

Lemma strip_prefix_Some (p s rest : text) :
  strip_prefix p s = Some rest → s = p ++ rest.
Proof.
  revert s. induction p as [|c p IH]; intros s H; simpl in H.
  - by inversion H.
  - destruct s as [|d s]; [done|].
    destruct (N.eqb c d) eqn:E; [|done]. apply N.eqb_eq in E. subst.
    simpl. f_equal. by apply IH.
Qed.

Lemma after_line_split (s : text) :
  ∃ line, s = line ++ after_line s ∧
          Forall (fun c => line_terminator c = false) line ∧
          match after_line s with
          | [] => True
          | c :: _ => line_terminator c = true
          end.
Proof.
  induction s as [|c s (line & Hs & Hline & Hrest)].
  - exists []. by split_and!.
  - cbn [after_line]. destruct (line_terminator c) eqn:E.
    + exists []. by split_and!.
    + exists (c :: line). split_and!; [by rewrite Hs at 1|by constructor|done].
Qed.

Lemma strip_prefix_None (s a b : text) :
  strip_prefix stories_pattern s = None → s ≠ stories_pattern ++ b.
Proof. intros H ->. by rewrite strip_prefix_app in H. Qed.

(** The clean-up leaves the text as it is when [const stories = storiesOf(]
    does not occur in it; otherwise it leaves out one stretch and nothing
    else: the leftmost occurrence of that text and what follows it on its
    line, up to the next line terminator, which stays. *)
Theorem replace_stories_one_stretch (s : text) :
  (replace_stories s = s ∧ ∀ a b, s ≠ a ++ stories_pattern ++ b) ∨
  ∃ pre line rest,
    s = pre ++ stories_pattern ++ line ++ rest ∧
    replace_stories s = pre ++ rest ∧
    Forall (fun c => line_terminator c = false) line ∧
    match rest with [] => True | c :: _ => line_terminator c = true end ∧
    ∀ a b, s = a ++ stories_pattern ++ b → length pre ≤ length a.
Proof.
  induction s as [|c s IH]; rewrite replace_stories_eq.
  - left. split; [done|]. intros a b E. by destruct a.
  - destruct (strip_prefix stories_pattern (c :: s)) as [tail|] eqn:E.
    + right. apply strip_prefix_Some in E.
      destruct (after_line_split tail) as (line & Htail & Hline & Hrest).
      exists [], line, (after_line tail). split_and!; [|done|done|done|].
      * rewrite E. cbn [app]. by rewrite <- Htail.
      * intros a b _. cbn [length]. lia.
    + destruct IH as [[Hsame Hnone]|(pre & line & rest & Hs & Hr & Hline & Hrest & Hleft)].
      * left. split; [by rewrite Hsame|].
        intros [|c' a] b Heq.
        -- by apply (strip_prefix_None _ [] b) in E.
        -- inversion Heq; subst. by apply (Hnone a b).
      * right. exists (c :: pre), line, rest. split_and!; [|by rewrite Hr|done|done|].
        -- by rewrite Hs at 1.
        -- intros [|c' a] b Heq.
           ++ by apply (strip_prefix_None _ [] b) in E.
           ++ inversion Heq; subst. cbn [length].
              apply le_n_S. by apply (Hleft a b).
Qed.

(** ** The loop of the registry *)

(** The [while] loop always ends, after at most as many turns as there are
    registered identifiers, on a key that is not registered. *)
Theorem unique_key_terminates (identifiers : gset string) (key : string) :
  ∃ n k, unique_key identifiers key = Some k ∧
         k = underscored n key ∧ n ≤ size identifiers ∧ k ∉ identifiers.
Proof.
  destruct (unique_key_total identifiers key) as [k Hk].
  destruct (fresh_Some _ _ _ _ Hk) as (n & Hn & -> & Hout & _).
  exists n, (underscored n key). split_and!; [done|done|lia|done].
Qed.

Section StoryCount.

Variable sanitizeName : string -> string.

Lemma read_stories_length adds : ∀ identifiers stories,
  read_stories sanitizeName identifiers adds = Ok stories →
  length stories = length adds.
Proof.
  induction adds as [|add adds IH]; intros identifiers stories H; simpl in H.
  - by inversion H.
  - inv_bind H. inversion H; subst. simpl. f_equal. by eapply IH.
Qed.

(** A conversion exports one story for the [.add] call it starts from and
    one for every story-shaped [.add] call that [find] meets below it, be it
    a link of the chain or a call inside an argument. *)
Theorem export_per_story_add root add originalExports stmts :
  convertToModuleExports sanitizeName root add originalExports = Ok stmts →
  length (omap exported_key stmts) = S (length (find_calls is_story_add add)).
Proof.
  intros H.
  destruct (convertToModuleExports_stories _ _ _ _ _ H)
    as (defaults & stories & -> & Hdef & _ & Hread).
  apply read_stories_length in Hread.
  rewrite omap_app, exported_key_story_statements, length_app, length_map, Hread.
  replace (omap exported_key defaults) with (@nil string).
  - rewrite length_app, length_rev. simpl. lia.
  - clear -Hdef. induction Hdef as [|s l Hs _ IH]; [done|].
    destruct s; try discriminate. by simpl.
Qed.

End StoryCount.

Lemma export_per_story_add_witness :
  ∃ stmts,
    convertToModuleExports keep_name []
      (chain (storiesOf_call "A")
             [("add", [ StringLiteral "First";
                        Other "ArrowFunctionExpression"
                          [chain (Identifier "registry")
                                 [("add", [StringLiteral "Inner"; Identifier "g"])]] ])])
      [] = Ok stmts ∧
    omap exported_key stmts = ["Inner"; "First"] ∧
    length (omap exported_key stmts) = 2.
Proof.
  eexists. split; [by vm_compute|]. split; [reflexivity|].
  exact (export_per_story_add keep_name []
           (chain (storiesOf_call "A")
                  [("add", [ StringLiteral "First";
                             Other "ArrowFunctionExpression"
                               [chain (Identifier "registry")
                                      [("add", [StringLiteral "Inner";
                                                Identifier "g"])]] ])])
           [] _ eq_refl).
Defined.
